(** * The disk I/O thread pool of libtorrent (src/disk_io_thread_pool.cpp)

    A shallow embedding of [libtorrent::aux::disk_io_thread_pool]: the pool
    object is a record, every member function is a function from the pool
    before the call to the pool after it (and the returned value, if any).

    Conventions.
    - [int] is a 32-bit two's-complement integer, carried in [Z]; every
      arithmetic operation of the source that can leave the range is followed
      by [to_int].  For [std::atomic<int>] this is what the standard
      prescribes; for plain [int] overflow is undefined in C++, so theorems
      that speak about the mathematical value of such an expression assume
      that it fits ([fits_int]).
    - The collaborators the pool only calls into (the mutex [m_mutex], the
      timer [m_idle_timer], the condition variable [m_job_cond], the
      [std::thread] handles) are not given a state of their own: each call on
      them is appended to the field [calls] of the pool, oldest first.
    - Other threads.  A member function is described as one call running on
      its own, except where the source itself expects company: a
      compare-and-swap retry loop takes the list of disturbances
      ([interference]) that hit its cell, and a wait on the condition
      variable takes what the rest of the program did meanwhile.  The pool
      returned is the pool as the call leaves it.
    - [TORRENT_ASSERT] is compiled out (release build). *)

From Stdlib Require Import ZArith List Bool Lia.
Import ListNotations.
Local Open Scope Z_scope.

(** ** Machine integers *)

Definition int_min : Z := -2147483648.
Definition int_max : Z := 2147483647.

Definition fits_int (z : Z) : Prop := int_min <= z <= int_max.

(** Reduction to the 32-bit two's-complement representative. *)
Definition to_int (z : Z) : Z := (z + 2147483648) mod 4294967296 - 2147483648.

(** [a - b] on [int]. *)
Definition int_sub (a b : Z) : Z := to_int (a - b).

(** [std::max] on [int]. *)
Definition std_max (a b : Z) : Z := if a <? b then b else a.

(** ** Collaborators *)

Definition thread_id := nat.
Definition job := nat.

(** [boost::system::error_code]: zero is success, [if (ec)] tests for non-zero. *)
Definition error_code := Z.
Definition ec_set (ec : error_code) : bool := negb (ec =? 0).

(** [reap_idle_threads_interval], in seconds. *)
Definition reap_idle_threads_interval : Z := 60.

Inductive call : Type :=
| MutexLock                          (* m_mutex acquired *)
| MutexUnlock                        (* m_mutex released *)
| TimerCancel                        (* m_idle_timer.cancel() *)
| TimerExpiresAfter (seconds : Z)    (* m_idle_timer.expires_after(..) *)
| TimerAsyncWait                     (* m_idle_timer.async_wait(reap_idle_threads) *)
| NotifyAll                          (* m_job_cond.notify_all() *)
| CondWaitFor (seconds : Z)          (* m_job_cond.wait_for(l, ..) *)
| ThreadStart (id : thread_id)       (* std::thread constructed by emplace_back *)
| ThreadJoin (id : thread_id)        (* t.join() *)
| ThreadDetach (id : thread_id).     (* t.detach() *)

(** ** The pool *)

Record pool : Type := mk_pool {
  m_max_threads : Z;              (* int, guarded by m_mutex *)
  m_threads_to_exit : Z;          (* std::atomic<int> *)
  m_abort : bool;                 (* guarded by m_mutex *)
  m_num_idle_threads : Z;         (* std::atomic<int> *)
  m_min_idle_threads : Z;         (* std::atomic<int> *)
  m_threads : list thread_id;     (* std::vector<std::thread>, by thread id *)
  m_queued_jobs : list job;       (* jobqueue_t *)
  threads_started : nat;          (* how many threads the process has created:
                                     the next std::thread gets this id *)
  calls : list call               (* calls made on the collaborators *)
}.

(** The constructor: no thread, every counter zero. *)
Definition new_pool : pool :=
  mk_pool 0 0 false 0 0 [] [] 0 [].

Definition set_max (v : Z) (s : pool) : pool :=
  mk_pool v (m_threads_to_exit s) (m_abort s) (m_num_idle_threads s)
    (m_min_idle_threads s) (m_threads s) (m_queued_jobs s) (threads_started s) (calls s).

Definition set_to_exit (v : Z) (s : pool) : pool :=
  mk_pool (m_max_threads s) v (m_abort s) (m_num_idle_threads s)
    (m_min_idle_threads s) (m_threads s) (m_queued_jobs s) (threads_started s) (calls s).

Definition set_abort (v : bool) (s : pool) : pool :=
  mk_pool (m_max_threads s) (m_threads_to_exit s) v (m_num_idle_threads s)
    (m_min_idle_threads s) (m_threads s) (m_queued_jobs s) (threads_started s) (calls s).

Definition set_num_idle (v : Z) (s : pool) : pool :=
  mk_pool (m_max_threads s) (m_threads_to_exit s) (m_abort s) v
    (m_min_idle_threads s) (m_threads s) (m_queued_jobs s) (threads_started s) (calls s).

Definition set_min_idle (v : Z) (s : pool) : pool :=
  mk_pool (m_max_threads s) (m_threads_to_exit s) (m_abort s) (m_num_idle_threads s)
    v (m_threads s) (m_queued_jobs s) (threads_started s) (calls s).

Definition set_threads (v : list thread_id) (s : pool) : pool :=
  mk_pool (m_max_threads s) (m_threads_to_exit s) (m_abort s) (m_num_idle_threads s)
    (m_min_idle_threads s) v (m_queued_jobs s) (threads_started s) (calls s).

Definition set_started (v : nat) (s : pool) : pool :=
  mk_pool (m_max_threads s) (m_threads_to_exit s) (m_abort s) (m_num_idle_threads s)
    (m_min_idle_threads s) (m_threads s) (m_queued_jobs s) v (calls s).

Definition set_calls (v : list call) (s : pool) : pool :=
  mk_pool (m_max_threads s) (m_threads_to_exit s) (m_abort s) (m_num_idle_threads s)
    (m_min_idle_threads s) (m_threads s) (m_queued_jobs s) (threads_started s) v.

(** Record one call on a collaborator. *)
Definition emit (c : call) (s : pool) : pool := set_calls (calls s ++ [c]) s.

Definition lock : pool -> pool := emit MutexLock.
Definition unlock : pool -> pool := emit MutexUnlock.

(** [int(m_threads.size())] *)
Definition threads_size (s : pool) : Z := to_int (Z.of_nat (length (m_threads s))).

(** [m_threads.empty()], [m_queued_jobs.empty()] *)
Definition threads_empty (s : pool) : bool :=
  match m_threads s with [] => true | _ :: _ => false end.
Definition queue_empty (s : pool) : bool :=
  match m_queued_jobs s with [] => true | _ :: _ => false end.

(** ** Atomic cells under contention *)

(** What may happen to an atomic cell between two steps of a retry loop. *)
Inductive interference : Type :=
| Spurious              (* the weak compare-and-swap fails for no reason *)
| Store (v : Z).        (* another thread has stored [v] into the cell *)

Definition is_spurious (i : interference) : bool :=
  match i with Spurious => true | Store _ => false end.

Definition disturb (i : interference) (cell : Z) : Z :=
  match i with Spurious => cell | Store v => v end.

(** The values other threads store during a loop. *)
Fixpoint stored (race : list interference) : list Z :=
  match race with
  | [] => []
  | Spurious :: r => stored r
  | Store v :: r => v :: stored r
  end.

(** [cell.compare_exchange_weak(expected, desired)]: the result, the cell and
    [expected] afterwards. *)
Definition compare_exchange_weak (spurious : bool) (cell expected desired : Z)
  : bool * Z * Z :=
  if (cell =? expected) && negb spurious
  then (true, desired, expected)
  else (false, cell, cell).

(** [while (again(expected) && !cell.compare_exchange_weak(expected, desired(expected)));]
    One element of [race] is consumed by each attempt; once the list is used
    up nobody disturbs the cell any more, and at most two more attempts are
    needed.  Returns the cell and [expected] when the loop is left. *)
Fixpoint cas_retry (again : Z -> bool) (desired : Z -> Z)
    (race : list interference) (cell expected : Z) : Z * Z :=
  if again expected then
    match race with
    | i :: race' =>
        let '(ok, cell', expected') :=
          compare_exchange_weak (is_spurious i) (disturb i cell) expected (desired expected) in
        if ok then (cell', expected')
        else cas_retry again desired race' cell' expected'
    | [] =>
        let '(ok, cell', expected') :=
          compare_exchange_weak false cell expected (desired expected) in
        if ok then (cell', expected')
        else if again expected' then
          let '(_, cell'', expected'') :=
            compare_exchange_weak false cell' expected' (desired expected') in
          (cell'', expected'')
        else (cell', expected')
    end
  else (cell, expected).

(** ** Member functions *)

(** [disk_io_thread_pool::stop_threads] *)
Definition stop_threads (num_to_stop : Z) (s : pool) : pool :=
  emit NotifyAll (set_to_exit num_to_stop s).

(** [disk_io_thread_pool::set_max_threads] *)
Definition set_max_threads (i : Z) (s : pool) : pool :=
  let s := lock s in
  if i =? m_max_threads s then unlock s
  else
    let s := set_max i s in
    if threads_size s <? i then unlock s
    else unlock (stop_threads (int_sub (threads_size s) i) s).

(** What a call of [abort] ends with: it returns, or [std::thread::join]
    throws and the exception leaves the function. *)
Inductive completion : Type :=
| Returned
| Threw (id : thread_id).

(** The loop [for (auto& t : m_threads)] of [abort].  [join_throws] tells for
    which threads [join] raises [std::system_error]; the mutex is not held at
    that moment and the guard [l] does not re-acquire it. *)
Fixpoint abort_each (join_throws : thread_id -> bool) (wait : bool)
    (ts : list thread_id) (s : pool) : completion * pool :=
  match ts with
  | [] => (Returned, s)
  | t :: ts' =>
      if wait then
        let s := unlock s in
        let s := emit (ThreadJoin t) s in
        if join_throws t then (Threw t, s)
        else
          let s := lock s in
          abort_each join_throws wait ts' s
      else
        abort_each join_throws wait ts' (emit (ThreadDetach t) s)
  end.

(** [disk_io_thread_pool::abort] *)
Definition abort (join_throws : thread_id -> bool) (wait : bool) (s : pool)
  : completion * pool :=
  let s := lock s in
  if m_abort s then (Returned, unlock s)
  else
    let s := set_abort true s in
    let s := emit TimerCancel s in
    let s := stop_threads (threads_size s) s in
    match abort_each join_throws wait (m_threads s) s with
    | (Returned, s) => (Returned, unlock (set_threads [] s))
    | (Threw t, s) => (Threw t, s)
    end.

(** [disk_io_thread_pool::thread_active] *)
Definition thread_active (race : list interference) (s : pool) : pool :=
  let num_idle_threads := to_int (m_num_idle_threads s - 1) in
  let s := set_num_idle num_idle_threads s in
  let current_min := m_min_idle_threads s in
  let '(cell, _) :=
    cas_retry (fun current_min => num_idle_threads <? current_min)
              (fun _ => num_idle_threads) race (m_min_idle_threads s) current_min in
  set_min_idle cell s.

(** The [std::remove_if] of [try_thread_exit]: every handle whose id is [id]
    is detached and dropped, the others keep their order. *)
Fixpoint remove_thread (id : thread_id) (ts : list thread_id) (s : pool)
  : list thread_id * pool :=
  match ts with
  | [] => ([], s)
  | t :: ts' =>
      if Nat.eqb t id then remove_thread id ts' (emit (ThreadDetach t) s)
      else let '(kept, s) := remove_thread id ts' s in (t :: kept, s)
  end.

(** The claim of [try_thread_exit],
    [int to_exit = m_threads_to_exit;
     while (to_exit > 0 && !m_threads_to_exit.compare_exchange_weak(to_exit, to_exit - 1));]
    given the value of the cell at the load: the cell and the local [to_exit]
    when the loop is left. *)
Definition claim_slot (race : list interference) (cell : Z) : Z * Z :=
  let to_exit := cell in
  cas_retry (fun to_exit => 0 <? to_exit) (fun to_exit => to_exit - 1) race cell to_exit.

(** [disk_io_thread_pool::try_thread_exit] *)
Definition try_thread_exit (race : list interference) (id : thread_id) (s : pool)
  : bool * pool :=
  let '(cell, to_exit) := claim_slot race (m_threads_to_exit s) in
  let s := set_to_exit cell s in
  if 0 <? to_exit then
    let s := lock s in
    if negb (m_abort s) then
      let '(kept, s) := remove_thread id (m_threads s) s in
      let s := set_threads kept s in
      let s := if threads_empty s then emit TimerCancel s else s in
      (true, unlock s)
    else (true, unlock s)
  else (false, s).


(** The body of the growth loop of [job_queued]: the first thread started
    also starts the reaper timer. *)
Definition start_thread (s : pool) : pool :=
  let s :=
    if threads_empty s then
      emit TimerAsyncWait (emit (TimerExpiresAfter reap_idle_threads_interval) s)
    else s in
  let id := threads_started s in
  let s := set_started (S id) s in
  let s := emit (ThreadStart id) s in
  set_threads (m_threads s ++ [id]) s.

(** The growth loop of [job_queued]:
    [for (int i = m_num_idle_threads; i < queue_size && int(m_threads.size()) < m_max_threads; ++i)].
    [n] bounds the number of passes; [Z.to_nat (queue_size - i)] is enough
    ([i] stays below [queue_size], so [++i] cannot overflow). *)
Fixpoint start_threads (n : nat) (queue_size i : Z) (s : pool) : pool :=
  match n with
  | O => s
  | S n' =>
      if (i <? queue_size) && (threads_size s <? m_max_threads s)
      then start_threads n' queue_size (i + 1) (start_thread s)
      else s
  end.

(** [disk_io_thread_pool::job_queued] *)
Definition job_queued (race : list interference) (queue_size : Z) (s : pool) : pool :=
  if queue_size <=? m_num_idle_threads s then s
  else
    let s := lock s in
    if m_abort s then unlock s
    else
      let to_exit := m_threads_to_exit s in
      let '(cell, _) :=
        cas_retry
          (fun to_exit => std_max 0 (int_sub (m_num_idle_threads s) queue_size) <? to_exit)
          (fun _ => std_max 0 (int_sub (m_num_idle_threads s) queue_size))
          race (m_threads_to_exit s) to_exit in
      let s := set_to_exit cell s in
      let i := m_num_idle_threads s in
      unlock (start_threads (Z.to_nat (queue_size - i)) queue_size i s).

(** [disk_io_thread_pool::reap_idle_threads] *)
Definition reap_idle_threads (ec : error_code) (s : pool) : pool :=
  if ec_set ec then s
  else
    let s := lock s in
    if m_abort s then unlock s
    else if threads_empty s then unlock s
    else
      let s := emit (TimerExpiresAfter reap_idle_threads_interval) s in
      let s := emit TimerAsyncWait s in
      let min_idle := m_min_idle_threads s in
      let s := set_min_idle (m_num_idle_threads s) s in
      if min_idle <=? 0 then unlock s
      else
        let to_stop := std_max min_idle (int_sub (threads_size s) (m_max_threads s)) in
        unlock (stop_threads to_stop s).

(** Modelled from the spec: [thread_idle] is declared in
    disk_io_thread_pool.hpp, which is not part of the sources at hand.  The
    spec: a worker that finds no work "transitions to IDLE (increments
    num_idle_threads)". *)
Definition thread_idle (s : pool) : pool :=
  set_num_idle (to_int (m_num_idle_threads s + 1)) s.

(** Modelled from the spec: [should_exit] is declared in
    disk_io_thread_pool.hpp.  The spec: "an exit has been requested
    (threads_to_exit > 0)". *)
Definition should_exit (s : pool) : bool := 0 <? m_threads_to_exit s.

(** Modelled from the spec: [num_threads] is declared in
    disk_io_thread_pool.hpp.  The spec: "current_worker_count() -> integer",
    the number of workers in the registry. *)
Definition num_threads (s : pool) : Z := threads_size s.

(** The condition of the [if] inside the loop of [wait_for_job]:
    [should_exit() && (m_queued_jobs.empty() || num_threads() > 1)
       && try_thread_exit(std::this_thread::get_id())],
    evaluated left to right, [try_thread_exit] only when the rest holds. *)
Definition exit_wanted (race : list interference) (id : thread_id) (s : pool)
  : bool * pool :=
  if should_exit s && (queue_empty s || (1 <? num_threads s))
  then try_thread_exit race id s
  else (false, s).

(** One pass of the [do ... while] loop of [wait_for_job], as the caller sees
    it: the disturbances of the exit claim, what the rest of the program does
    to the pool while this thread sits in [m_job_cond.wait_for(l, 1s)], and
    the disturbances of the [thread_active] that ends the pass, if it does. *)
Record pass : Type := mk_pass {
  claim_race : list interference;
  meanwhile : pool -> pool;
  active_race : list interference
}.

(** [m_job_cond.wait_for(l, 1s)] *)
Definition wait_for (others : pool -> pool) (s : pool) : pool :=
  others (emit (CondWaitFor 1) s).

(** The [do ... while (m_queued_jobs.empty())] loop of [wait_for_job].  The
    loop need not end: [None] says that the thread is still waiting after
    the passes given. *)
Fixpoint wait_loop (id : thread_id) (passes : list pass) (s : pool)
  : option bool * pool :=
  match passes with
  | [] => (None, s)
  | p :: passes' =>
      let '(leave, s) := exit_wanted (claim_race p) id s in
      if leave then (Some true, thread_active (active_race p) s)
      else
        let s := wait_for (meanwhile p) s in
        if queue_empty s then wait_loop id passes' s
        else (Some false, thread_active (active_race p) s)
  end.

(** [disk_io_thread_pool::wait_for_job], called by the thread [id]. *)
Definition wait_for_job (id : thread_id) (passes : list pass) (s : pool)
  : option bool * pool :=
  if queue_empty s then wait_loop id passes (thread_idle s)
  else (Some false, s).

(** How a retry loop is left, as the pair (cell, [expected]) it returns:
    [expected] is one of [seen], and the loop has stored [desired expected]
    over it if [again expected] holds and has stored nothing otherwise. *)
Definition left_with (again : Z -> bool) (desired : Z -> Z) (seen : list Z)
    (r : Z * Z) : Prop :=
  In (snd r) seen
  /\ (again (snd r) = true -> fst r = desired (snd r))
  /\ (again (snd r) = false -> fst r = snd r).

(** ** Writers of [m_threads_to_exit] *)

(** The member functions that store into [m_threads_to_exit]: the exit
    claim, the three callers of [stop_threads], and [job_queued]. *)
Inductive writer : Type :=
| TryThreadExit (race : list interference) (id : thread_id)
| SetMaxThreads (i : Z)
| Abort (join_throws : thread_id -> bool) (wait : bool)
| ReapIdleThreads (ec : error_code)
| JobQueued (race : list interference) (queue_size : Z).

Definition perform (w : writer) (s : pool) : pool :=
  match w with
  | TryThreadExit race id => snd (try_thread_exit race id s)
  | SetMaxThreads i => set_max_threads i s
  | Abort join_throws wait => snd (abort join_throws wait s)
  | ReapIdleThreads ec => reap_idle_threads ec s
  | JobQueued race queue_size => job_queued race queue_size s
  end.

Fixpoint perform_all (ws : list writer) (s : pool) : pool :=
  match ws with
  | [] => s
  | w :: ws' => perform_all ws' (perform w s)
  end.

(** What a call has to respect for C++ to give it a meaning: an [int]
    argument is an [int], the subtraction of [set_max_threads] does not
    overflow, and the values other threads put into the cell during a retry
    loop are values the pool's own writers produce. *)
Definition defined (w : writer) (s : pool) : Prop :=
  match w with
  | TryThreadExit race _ => Forall (fun v => 0 <= v) (stored race)
  | SetMaxThreads i => fits_int i /\ fits_int (threads_size s - i)
  | Abort _ _ => True
  | ReapIdleThreads _ => True
  | JobQueued race _ => Forall (fun v => 0 <= v) (stored race)
  end.

Fixpoint all_defined (ws : list writer) (s : pool) : Prop :=
  match ws with
  | [] => True
  | w :: ws' => defined w s /\ all_defined ws' (perform w s)
  end.

(** The registry holds no more handles than an [int] can count. *)
Definition registry_fits (s : pool) : Prop :=
  Z.of_nat (length (m_threads s)) <= int_max.

Definition pool_ok (s : pool) : Prop :=
  0 <= m_threads_to_exit s /\ registry_fits s /\ fits_int (m_max_threads s).

(** ** Descriptions used in statements *)

(** The pool after the growth loop of [job_queued] has started [k] threads:
    they get the next [k] ids, are appended to the registry in that order,
    and the reaper timer is armed first when the registry was empty. *)
Definition grown (k : nat) (s : pool) : pool :=
  set_calls
    (calls s
     ++ (if threads_empty s && negb (Nat.eqb k 0)
         then [TimerExpiresAfter reap_idle_threads_interval; TimerAsyncWait]
         else [])
     ++ map ThreadStart (seq (threads_started s) k))
    (set_threads (m_threads s ++ seq (threads_started s) k)
       (set_started (k + threads_started s) s)).

(** How many threads [job_queued queue_size] starts once past its early
    returns: as many as jobs lack an idle worker, as far as the cap allows. *)
Definition growth (queue_size : Z) (s : pool) : nat :=
  Z.to_nat (Z.min (queue_size - m_num_idle_threads s)
                  (m_max_threads s - Z.of_nat (length (m_threads s)))).

(** Exit claims made one after the other, each left alone at the counter. *)
Fixpoint claim_each (ids : list thread_id) (s : pool) : list bool * pool :=
  match ids with
  | [] => ([], s)
  | id :: ids' =>
      let '(claimed, s) := try_thread_exit [] id s in
      let '(rest, s) := claim_each ids' s in
      (claimed :: rest, s)
  end.

(** A call that touches neither the timer nor a thread handle. *)
Definition quiet_call (c : call) : bool :=
  match c with MutexLock | MutexUnlock | NotifyAll => true | _ => false end.

(** The calls of [abort(true)] for the threads [ts], as long as no [join]
    throws: the mutex is released around each join. *)
Definition joined (ts : list thread_id) : list call :=
  flat_map (fun t => [MutexUnlock; ThreadJoin t; MutexLock]) ts.

(** A pool that [abort(true)] gave up on: the join of thread 1 threw, the
    flag is set and the registry still holds the three workers. *)
Definition aborted_pool : pool :=
  mk_pool 1 3 true 0 0 [0%nat; 1%nat; 2%nat] [] 3
    [MutexLock; TimerCancel; NotifyAll;
     MutexUnlock; ThreadJoin 0%nat; MutexLock;
     MutexUnlock; ThreadJoin 1%nat].

(** The registry holds each thread once, and only threads already started. *)
Definition ids_ok (s : pool) : Prop :=
  NoDup (m_threads s)
  /\ Forall (fun t => (t < threads_started s)%nat) (m_threads s).

(** ** Sample pools *)

(** Raise the cap, queue three jobs, lower the cap, let a worker claim its
    exit, let the reaper fire, shut the pool down. *)
Definition sample_calls : list writer :=
  [SetMaxThreads 2; JobQueued [] 3; SetMaxThreads 1;
   TryThreadExit [Spurious] 0%nat; ReapIdleThreads 0;
   Abort (fun _ => false) true].

(** Five workers under a cap of four, three of them idle now and at least
    two idle through the whole sampling period. *)
Definition sample_pool : pool :=
  mk_pool 4 0 false 3 2 [0%nat; 1%nat; 2%nat; 3%nat; 4%nat] [] 5 [].

(** Three workers under a cap of one, none of them idle through the period. *)
Definition busy_over_cap_pool : pool :=
  mk_pool 1 0 false 0 0 [0%nat; 1%nat; 2%nat] [] 3 [].

(** One worker, one queued job, one exit requested. *)
Definition last_worker_pool : pool :=
  mk_pool 1 1 false 1 0 [7%nat] [42%nat] 8 [].

(** Four workers under a cap of five, three exits still requested. *)
Definition pending_exits_pool : pool :=
  mk_pool 5 3 false 3 0 [0%nat; 1%nat; 2%nat; 3%nat] [] 4 [].

(** ** Sample runs *)

Example reap_sample :
  reap_idle_threads 0 sample_pool
  = mk_pool 4 2 false 3 3 [0%nat; 1%nat; 2%nat; 3%nat; 4%nat] [] 5
      [MutexLock; TimerExpiresAfter 60; TimerAsyncWait; NotifyAll; MutexUnlock].
Proof. reflexivity. Qed.

Example job_queued_sample :
  job_queued [] 2 (set_max_threads 2 new_pool)
  = mk_pool 2 0 false 0 0 [0%nat; 1%nat] [] 2
      [MutexLock; MutexUnlock;
       MutexLock; TimerExpiresAfter 60; TimerAsyncWait; ThreadStart 0%nat;
       ThreadStart 1%nat; MutexUnlock].
Proof. reflexivity. Qed.

Example claim_race_sample :
  try_thread_exit [Store 1; Spurious; Store 0] 1%nat
    (set_to_exit 2 sample_pool)
  = (false, set_to_exit 0 sample_pool).
Proof. reflexivity. Qed.

(** One idle worker; while it waits a job is queued and a shrink request
    asks for one exit: the worker answers [false] and the request stands. *)
Example last_worker_sample :
  let s := mk_pool 1 0 false 0 0 [7%nat] [] 8 [] in
  let job_and_shrink (s : pool) :=
    mk_pool (m_max_threads s) 1 (m_abort s) (m_num_idle_threads s)
      (m_min_idle_threads s) (m_threads s) [42%nat] (threads_started s) (calls s) in
  wait_for_job 7%nat [mk_pass [] job_and_shrink []] s
  = (Some false, mk_pool 1 1 false 0 0 [7%nat] [42%nat] 8 [CondWaitFor 1]).
Proof. reflexivity. Qed.

(** The same worker with nothing queued takes the exit. *)
Example last_worker_leaves_sample :
  let s := mk_pool 1 1 false 0 0 [7%nat] [] 8 [] in
  wait_for_job 7%nat [mk_pass [] (fun s => s) []] s
  = (Some true, mk_pool 1 0 false 0 0 [] [] 8
                  [MutexLock; ThreadDetach 7%nat; TimerCancel; MutexUnlock]).
Proof. reflexivity. Qed.

(** ** Arithmetic *)

(** Lay a pool out field by field, the recorded calls as one list. *)
Ltac log_calls :=
  unfold lock, unlock, stop_threads, emit, set_calls, set_to_exit, set_max,
    set_min_idle; simpl;
  rewrite <- ?app_assoc; simpl; try reflexivity.

Lemma to_int_fits (z : Z) : fits_int z -> to_int z = z.
Proof.
  unfold fits_int, to_int, int_min, int_max. intros H.
  rewrite Z.mod_small; lia.
Qed.

Lemma std_max_is_max (a b : Z) : std_max a b = Z.max a b.
Proof. unfold std_max. destruct (Z.ltb_spec a b); lia. Qed.

Lemma threads_size_fits (s : pool) :
  registry_fits s -> threads_size s = Z.of_nat (length (m_threads s)).
Proof.
  unfold registry_fits, threads_size. intros H. apply to_int_fits.
  unfold fits_int, int_min. unfold int_max in *. lia.
Qed.

Lemma threads_empty_false (s : pool) : m_threads s <> [] -> threads_empty s = false.
Proof. unfold threads_empty. destruct (m_threads s); congruence. Qed.

Lemma queue_empty_false (s : pool) : m_queued_jobs s <> [] -> queue_empty s = false.
Proof. unfold queue_empty. destruct (m_queued_jobs s); congruence. Qed.

(** ** The reaper *)

(** The reaper past its three early returns: the timer re-armed, the minimum
    swapped for the current idle count, then the decision on the sampled
    value. *)
Lemma reap_proceeds (ec : error_code) (s : pool) :
  ec_set ec = false -> m_abort s = false -> m_threads s <> [] ->
  reap_idle_threads ec s =
    let s1 := set_min_idle (m_num_idle_threads s)
                (emit TimerAsyncWait
                   (emit (TimerExpiresAfter reap_idle_threads_interval) (lock s))) in
    if m_min_idle_threads s <=? 0 then unlock s1
    else unlock (stop_threads
                   (std_max (m_min_idle_threads s)
                      (int_sub (threads_size s) (m_max_threads s))) s1).
Proof.
  intros Hec Hab Hne. unfold reap_idle_threads. rewrite Hec.
  change (m_abort (lock s)) with (m_abort s). rewrite Hab.
  change (threads_empty (lock s)) with (threads_empty s).
  rewrite (threads_empty_false s Hne). reflexivity.
Qed.

(** C1.  A firing of the reaper that proceeds (error code clear, pool not
    aborting, at least one worker registered) swaps [m] out of
    [m_min_idle_threads]; with [c] workers registered and the cap [k], it
    calls [stop_threads] for exactly [max m (c - k)] workers when [0 < m]
    (that number is stored into [m_threads_to_exit] and the waiters are
    notified, once), and it requests nothing when [m <= 0] (the counter keeps
    its value and nobody is notified).  In both cases the timer is re-armed
    and [m_min_idle_threads] restarts from the current idle count. *)
Theorem reaper_requests_max_of_idle_and_excess (ec : error_code) (s : pool) :
  ec_set ec = false -> m_abort s = false -> m_threads s <> [] ->
  fits_int (threads_size s - m_max_threads s) ->
  let m := m_min_idle_threads s in
  let c := threads_size s in
  let k := m_max_threads s in
  (0 < m ->
     reap_idle_threads ec s
     = set_calls
         (calls s ++ [MutexLock; TimerExpiresAfter 60; TimerAsyncWait;
                      NotifyAll; MutexUnlock])
         (set_to_exit (Z.max m (c - k))
            (set_min_idle (m_num_idle_threads s) s)))
  /\ (m <= 0 ->
     reap_idle_threads ec s
     = set_calls
         (calls s ++ [MutexLock; TimerExpiresAfter 60; TimerAsyncWait;
                      MutexUnlock])
         (set_min_idle (m_num_idle_threads s) s)).
Proof.
  intros Hec Hab Hne Hfit m c k.
  rewrite (reap_proceeds ec s Hec Hab Hne). fold m. cbv zeta.
  split; intros Hm.
  - destruct (Z.leb_spec m 0) as [Hle | _]; [lia |].
    unfold int_sub. change (threads_size (set_min_idle _ _)) with c.
    change (m_max_threads (set_min_idle _ _)) with k.
    rewrite (to_int_fits _ Hfit), std_max_is_max. log_calls.
  - destruct (Z.leb_spec m 0) as [_ | Hlt]; [| lia]. log_calls.
Qed.

Lemma reaper_requests_max_of_idle_and_excess_witness :
  ec_set 0 = false /\ m_abort sample_pool = false /\ m_threads sample_pool <> []
  /\ fits_int (threads_size sample_pool - m_max_threads sample_pool)
  /\ 0 < m_min_idle_threads sample_pool
  /\ reap_idle_threads 0 sample_pool
     = set_calls [MutexLock; TimerExpiresAfter 60; TimerAsyncWait;
                  NotifyAll; MutexUnlock]
         (set_to_exit (Z.max 2 (5 - 4)) (set_min_idle 3 sample_pool)).
Proof.
  assert (H1 : ec_set 0 = false) by reflexivity.
  assert (H2 : m_abort sample_pool = false) by reflexivity.
  assert (H3 : m_threads sample_pool <> []) by discriminate.
  assert (H4 : fits_int (threads_size sample_pool - m_max_threads sample_pool))
    by (vm_compute; split; discriminate).
  assert (H5 : 0 < m_min_idle_threads sample_pool) by reflexivity.
  exact (conj H1 (conj H2 (conj H3 (conj H4 (conj H5
    (proj1 (reaper_requests_max_of_idle_and_excess 0 sample_pool
              H1 H2 H3 H4) H5)))))).
Defined.

(** C2, as the code has it.  A firing that proceeds and has sampled a
    positive minimum requests at least [c - k] terminations when the [c]
    registered workers exceed the cap [k]. *)
Theorem reaper_enforces_cap_when_idle_seen (ec : error_code) (s : pool) :
  ec_set ec = false -> m_abort s = false -> m_threads s <> [] ->
  fits_int (threads_size s - m_max_threads s) ->
  0 < m_min_idle_threads s ->
  m_max_threads s < threads_size s ->
  let s' := reap_idle_threads ec s in
  threads_size s - m_max_threads s <= m_threads_to_exit s'
  /\ calls s' = calls s ++ [MutexLock; TimerExpiresAfter 60; TimerAsyncWait;
                            NotifyAll; MutexUnlock].
Proof.
  intros Hec Hab Hne Hfit Hm Hover s'. subst s'.
  rewrite (reap_proceeds ec s Hec Hab Hne). cbv zeta.
  destruct (Z.leb_spec (m_min_idle_threads s) 0) as [Hle | _]; [lia |].
  unfold int_sub. change (threads_size (set_min_idle _ _)) with (threads_size s).
  change (m_max_threads (set_min_idle _ _)) with (m_max_threads s).
  rewrite (to_int_fits _ Hfit), std_max_is_max.
  split; [| log_calls].
  change (m_threads_to_exit (unlock (stop_threads ?n ?x))) with n. lia.
Qed.

Lemma reaper_enforces_cap_when_idle_seen_witness :
  ec_set 0 = false /\ m_abort sample_pool = false /\ m_threads sample_pool <> []
  /\ fits_int (threads_size sample_pool - m_max_threads sample_pool)
  /\ 0 < m_min_idle_threads sample_pool
  /\ m_max_threads sample_pool < threads_size sample_pool
  /\ threads_size sample_pool - m_max_threads sample_pool
       <= m_threads_to_exit (reap_idle_threads 0 sample_pool).
Proof.
  assert (H1 : ec_set 0 = false) by reflexivity.
  assert (H2 : m_abort sample_pool = false) by reflexivity.
  assert (H3 : m_threads sample_pool <> []) by discriminate.
  assert (H4 : fits_int (threads_size sample_pool - m_max_threads sample_pool))
    by (vm_compute; split; discriminate).
  assert (H5 : 0 < m_min_idle_threads sample_pool) by reflexivity.
  assert (H6 : m_max_threads sample_pool < threads_size sample_pool) by reflexivity.
  exact (conj H1 (conj H2 (conj H3 (conj H4 (conj H5 (conj H6
    (proj1 (reaper_enforces_cap_when_idle_seen 0 sample_pool
              H1 H2 H3 H4 H5 H6)))))))).
Defined.

(** C2 as stated fails: with three workers under a cap of one and a sampled
    minimum of zero, the firing proceeds (it re-arms the timer) and requests
    no termination at all, where the claim asks for at least two. *)
Lemma reaper_ignores_cap_when_never_idle :
  ec_set 0 = false /\ m_abort busy_over_cap_pool = false
  /\ m_threads busy_over_cap_pool <> []
  /\ m_max_threads busy_over_cap_pool < threads_size busy_over_cap_pool
  /\ threads_size busy_over_cap_pool - m_max_threads busy_over_cap_pool = 2
  /\ m_threads_to_exit (reap_idle_threads 0 busy_over_cap_pool) = 0
  /\ calls (reap_idle_threads 0 busy_over_cap_pool)
     = [MutexLock; TimerExpiresAfter 60; TimerAsyncWait; MutexUnlock]
  /\ ~ (threads_size busy_over_cap_pool - m_max_threads busy_over_cap_pool
        <= m_threads_to_exit (reap_idle_threads 0 busy_over_cap_pool)).
Proof.
  split; [reflexivity |]. split; [reflexivity |]. split; [discriminate |].
  split; [reflexivity |]. split; [reflexivity |]. split; [reflexivity |].
  split; [reflexivity |]. intros H. apply H. reflexivity.
Qed.

(** ** Changing the cap *)

(** C5.  [set_max_threads n] with [n] the current maximum only takes and
    releases the mutex.  Otherwise it stores [n]; with fewer than [n] workers
    it then returns (no exit requested, no thread started); with [n] workers
    or more it calls [stop_threads] for exactly (worker count - [n]), between
    the same lock and unlock as the store. *)
Theorem set_max_threads_cases (n : Z) (s : pool) :
  (n = m_max_threads s ->
     set_max_threads n s = set_calls (calls s ++ [MutexLock; MutexUnlock]) s)
  /\ (n <> m_max_threads s -> threads_size s < n ->
      set_max_threads n s
      = set_calls (calls s ++ [MutexLock; MutexUnlock]) (set_max n s))
  /\ (n <> m_max_threads s -> n <= threads_size s ->
      fits_int (threads_size s - n) ->
      set_max_threads n s
      = set_calls (calls s ++ [MutexLock; NotifyAll; MutexUnlock])
          (set_to_exit (threads_size s - n) (set_max n s))).
Proof.
  unfold set_max_threads.
  change (m_max_threads (lock s)) with (m_max_threads s).
  change (threads_size (set_max n (lock s))) with (threads_size s).
  split; [| split].
  - intros ->. rewrite Z.eqb_refl. log_calls.
  - intros Hne Hlt. apply Z.eqb_neq in Hne. rewrite Hne.
    apply Z.ltb_lt in Hlt. rewrite Hlt. log_calls.
  - intros Hne Hge Hfit. apply Z.eqb_neq in Hne. rewrite Hne.
    destruct (Z.ltb_spec (threads_size s) n); [lia |].
    unfold int_sub. rewrite (to_int_fits _ Hfit). log_calls.
Qed.

Lemma set_max_threads_cases_witness :
  2 <> m_max_threads sample_pool /\ 2 <= threads_size sample_pool
  /\ fits_int (threads_size sample_pool - 2)
  /\ set_max_threads 2 sample_pool
     = set_calls [MutexLock; NotifyAll; MutexUnlock]
         (set_to_exit (5 - 2) (set_max 2 sample_pool)).
Proof.
  assert (H1 : 2 <> m_max_threads sample_pool) by discriminate.
  assert (H2 : 2 <= threads_size sample_pool) by discriminate.
  assert (H3 : fits_int (threads_size sample_pool - 2))
    by (vm_compute; split; discriminate).
  exact (conj H1 (conj H2 (conj H3
    (proj2 (proj2 (set_max_threads_cases 2 sample_pool)) H1 H2 H3)))).
Defined.

(** C9.  [set_max_threads n] with [n] different from the stored maximum and
    equal to the worker count calls [stop_threads 0]: whatever number of
    exits was requested before, [m_threads_to_exit] is 0 afterwards (and the
    waiters are notified). *)
Theorem set_max_threads_at_count_cancels_exits (n : Z) (s : pool) :
  n <> m_max_threads s -> threads_size s = n ->
  set_max_threads n s = unlock (stop_threads 0 (set_max n (lock s)))
  /\ m_threads_to_exit (set_max_threads n s) = 0
  /\ calls (set_max_threads n s) = calls s ++ [MutexLock; NotifyAll; MutexUnlock].
Proof.
  intros Hne Hc.
  assert (E : set_max_threads n s = unlock (stop_threads 0 (set_max n (lock s)))).
  { unfold set_max_threads.
    change (m_max_threads (lock s)) with (m_max_threads s).
    change (threads_size (set_max n (lock s))) with (threads_size s).
    apply Z.eqb_neq in Hne. rewrite Hne, Hc, Z.ltb_irrefl.
    unfold int_sub. rewrite Z.sub_diag. reflexivity. }
  rewrite E. split; [reflexivity |]. split; [reflexivity | log_calls].
Qed.

Lemma set_max_threads_at_count_cancels_exits_witness :
  4 <> m_max_threads pending_exits_pool /\ threads_size pending_exits_pool = 4
  /\ m_threads_to_exit pending_exits_pool = 3
  /\ m_threads_to_exit (set_max_threads 4 pending_exits_pool) = 0.
Proof.
  assert (H1 : 4 <> m_max_threads pending_exits_pool) by discriminate.
  assert (H2 : threads_size pending_exits_pool = 4) by reflexivity.
  exact (conj H1 (conj H2 (conj eq_refl
    (proj1 (proj2 (set_max_threads_at_count_cancels_exits 4 pending_exits_pool
                     H1 H2)))))).
Defined.

(** ** Frames *)

Lemma set_calls_calls (s : pool) : set_calls (calls s) s = s.
Proof. destruct s; reflexivity. Qed.

(** The loop of [abort] only talks to the mutex and the thread handles. *)
Lemma abort_each_frame (jt : thread_id -> bool) (wait : bool) (ts : list thread_id) :
  forall s, exists cs,
    snd (abort_each jt wait ts s) = set_calls (calls s ++ cs) s.
Proof.
  induction ts as [| t ts IH]; intros s; simpl.
  - exists []. rewrite app_nil_r. symmetry. apply set_calls_calls.
  - destruct wait.
    + destruct (jt t).
      * exists [MutexUnlock; ThreadJoin t]. simpl. log_calls.
      * destruct (IH (lock (emit (ThreadJoin t) (unlock s)))) as [cs E].
        exists ([MutexUnlock; ThreadJoin t; MutexLock] ++ cs). rewrite E. log_calls.
    + destruct (IH (emit (ThreadDetach t) s)) as [cs E].
      exists ([ThreadDetach t] ++ cs). rewrite E. log_calls.
Qed.

Lemma abort_sets_flag (jt : thread_id -> bool) (wait : bool) (s : pool) :
  m_abort (snd (abort jt wait s)) = true.
Proof.
  unfold abort. change (m_abort (lock s)) with (m_abort s).
  destruct (m_abort s) eqn:Hab; [exact Hab |].
  match goal with |- context [abort_each jt wait ?ts ?s0] =>
    destruct (abort_each_frame jt wait ts s0) as [cs E];
    destruct (abort_each jt wait ts s0) as [[| t] s1] end;
  simpl in E; subst s1; reflexivity.
Qed.

Lemma thread_active_frame (race : list interference) (s : pool) :
  m_threads_to_exit (thread_active race s) = m_threads_to_exit s
  /\ m_threads (thread_active race s) = m_threads s
  /\ m_queued_jobs (thread_active race s) = m_queued_jobs s
  /\ calls (thread_active race s) = calls s.
Proof.
  unfold thread_active.
  destruct (cas_retry _ _ race _ _) as [cell e]. repeat split.
Qed.

(** ** Shutdown *)

(** C8.  [abort] called on a pool whose [m_abort] is already set returns at
    once: it takes and releases the mutex and does nothing else (no timer
    call, no [stop_threads], no join, no detach; no field of the pool
    changes).  Every call of [abort] leaves [m_abort] set, whether it returns
    or throws, so a second call after a first one leaves the pool as the
    first call left it. *)
Theorem abort_is_idempotent
    (jt1 jt2 : thread_id -> bool) (wait1 wait2 : bool) (s : pool) :
  (m_abort s = true ->
     abort jt2 wait2 s
       = (Returned, set_calls (calls s ++ [MutexLock; MutexUnlock]) s))
  /\ (let s1 := snd (abort jt1 wait1 s) in
      m_abort s1 = true
      /\ abort jt2 wait2 s1
         = (Returned, set_calls (calls s1 ++ [MutexLock; MutexUnlock]) s1)).
Proof.
  assert (A : forall s0, m_abort s0 = true ->
            abort jt2 wait2 s0
              = (Returned, set_calls (calls s0 ++ [MutexLock; MutexUnlock]) s0)).
  { intros s0 H. unfold abort. change (m_abort (lock s0)) with (m_abort s0).
    rewrite H. log_calls. }
  split; [apply A |].
  cbv zeta. split; [apply abort_sets_flag | apply A, abort_sets_flag].
Qed.

Lemma abort_is_idempotent_witness :
  m_abort (snd (abort (fun _ => false) true sample_pool)) = true
  /\ abort (fun _ => false) false (snd (abort (fun _ => false) true sample_pool))
     = (Returned,
        set_calls
          (calls (snd (abort (fun _ => false) true sample_pool))
             ++ [MutexLock; MutexUnlock])
          (snd (abort (fun _ => false) true sample_pool))).
Proof.
  assert (H : m_abort (snd (abort (fun _ => false) true sample_pool)) = true)
    by reflexivity.
  exact (conj H
    (proj1 (abort_is_idempotent (fun _ => false) (fun _ => false) true false
              (snd (abort (fun _ => false) true sample_pool))) H)).
Defined.

(** ** Waiting for a job *)

(** C10.  [wait_for_job] entered with a job in the queue returns [false]
    ("go and process a job") without entering the loop, and the pool is left
    as it was: [m_num_idle_threads] and [m_min_idle_threads] keep their
    values and [m_job_cond] is not waited on. *)
Theorem wait_for_job_with_work_queued
    (id : thread_id) (passes : list pass) (s : pool) :
  m_queued_jobs s <> [] ->
  wait_for_job id passes s = (Some false, s).
Proof.
  intros H. unfold wait_for_job. rewrite (queue_empty_false s H). reflexivity.
Qed.

Lemma wait_for_job_with_work_queued_witness :
  m_queued_jobs last_worker_pool <> []
  /\ wait_for_job 7%nat [] last_worker_pool = (Some false, last_worker_pool).
Proof.
  assert (H : m_queued_jobs last_worker_pool <> []) by discriminate.
  exact (conj H (wait_for_job_with_work_queued 7%nat [] last_worker_pool H)).
Defined.

(** C3.  A worker that sees an exit requested while a job is queued and it
    is the only registered worker does not claim a slot and does not leave.
    In such a state [s]:
    - the exit test of the loop is false and [try_thread_exit] is not
      evaluated, the pool is untouched;
    - [wait_for_job] entered in [s] answers [false];
    - a worker woken into [s] by its wait answers [false], and the pool it
      returns with is [s] after [thread_active], with the exit counter and
      the registry of [s];
    - a pass of the loop begun in [s] goes on to wait, and then answers
      [false] or waits again. *)
Theorem last_worker_serves_queue_before_exit
    (id : thread_id) (race : list interference) (p : pass) (passes : list pass)
    (s : pool) :
  0 < m_threads_to_exit s -> m_queued_jobs s <> [] -> num_threads s = 1 ->
  exit_wanted race id s = (false, s)
  /\ wait_for_job id passes s = (Some false, s)
  /\ (forall s0,
       fst (exit_wanted (claim_race p) id s0) = false ->
       wait_for (meanwhile p) (snd (exit_wanted (claim_race p) id s0)) = s ->
       wait_loop id (p :: passes) s0
         = (Some false, thread_active (active_race p) s)
       /\ m_threads_to_exit (thread_active (active_race p) s)
          = m_threads_to_exit s
       /\ m_threads (thread_active (active_race p) s) = m_threads s)
  /\ wait_loop id (p :: passes) s
     = (let s2 := wait_for (meanwhile p) s in
        if queue_empty s2 then wait_loop id passes s2
        else (Some false, thread_active (active_race p) s2)).
Proof.
  intros Hexit Hq Hone.
  assert (E : forall r, exit_wanted r id s = (false, s)).
  { intros r. unfold exit_wanted, should_exit.
    rewrite (queue_empty_false s Hq), Hone.
    apply Z.ltb_lt in Hexit. rewrite Hexit. reflexivity. }
  split; [apply E |]. split; [| split].
  - unfold wait_for_job. rewrite (queue_empty_false s Hq). reflexivity.
  - intros s0 Hstay Hwake. cbn [wait_loop].
    destruct (exit_wanted (claim_race p) id s0) as [leave s1].
    cbn [fst snd] in Hstay, Hwake. subst leave. rewrite Hwake.
    rewrite (queue_empty_false s Hq).
    destruct (thread_active_frame (active_race p) s) as (A & B & _).
    split; [reflexivity | split; assumption].
  - cbn [wait_loop]. rewrite E. reflexivity.
Qed.

Lemma last_worker_serves_queue_before_exit_witness :
  0 < m_threads_to_exit last_worker_pool
  /\ m_queued_jobs last_worker_pool <> []
  /\ num_threads last_worker_pool = 1
  /\ exit_wanted [] 7%nat last_worker_pool = (false, last_worker_pool).
Proof.
  assert (H1 : 0 < m_threads_to_exit last_worker_pool) by reflexivity.
  assert (H2 : m_queued_jobs last_worker_pool <> []) by discriminate.
  assert (H3 : num_threads last_worker_pool = 1) by reflexivity.
  exact (conj H1 (conj H2 (conj H3
    (proj1 (last_worker_serves_queue_before_exit 7%nat [] (mk_pass [] (fun s => s) [])
              [] last_worker_pool H1 H2 H3))))).
Defined.

(** ** Retry loops *)

Lemma cas_weak_spurious (cell expected desired : Z) :
  compare_exchange_weak true cell expected desired = (false, cell, cell).
Proof. unfold compare_exchange_weak. rewrite andb_false_r. reflexivity. Qed.

Lemma cas_weak_equal (cell desired : Z) :
  compare_exchange_weak false cell cell desired = (true, desired, cell).
Proof. unfold compare_exchange_weak. rewrite Z.eqb_refl. reflexivity. Qed.

Lemma cas_weak_differ (cell expected desired : Z) :
  cell <> expected ->
  compare_exchange_weak false cell expected desired = (false, cell, cell).
Proof.
  intros H. unfold compare_exchange_weak. apply Z.eqb_neq in H. rewrite H.
  reflexivity.
Qed.

Section RetryLoop.

Variable again : Z -> bool.
Variable desired : Z -> Z.

Lemma left_without_store (c : Z) (seen : list Z) :
  again c = false -> left_with again desired (c :: seen) (c, c).
Proof.
  intros Ha. unfold left_with. simpl. rewrite Ha.
  split; [now left |]. split; [discriminate | reflexivity].
Qed.

Lemma left_after_store (c : Z) (seen : list Z) :
  again c = true -> left_with again desired (c :: seen) (desired c, c).
Proof.
  intros Ha. unfold left_with. simpl. rewrite Ha.
  split; [now left |]. split; [reflexivity | discriminate].
Qed.

Lemma left_with_later (c v : Z) (seen : list Z) (r : Z * Z) :
  left_with again desired (v :: seen) r ->
  left_with again desired (c :: v :: seen) r.
Proof. intros (A & B & C). split; [now right | now split]. Qed.

(** A retry loop entered right after the load of its cell leaves with
    [expected] one of the values the cell held (the loaded one or one stored
    by another thread since), and it has stored [desired expected] over it
    exactly when [again expected] holds; otherwise the cell still holds
    [expected]. *)
Lemma cas_retry_spec (race : list interference) :
  forall c, left_with again desired (c :: stored race)
              (cas_retry again desired race c c).
Proof.
  induction race as [| i race IH]; intros c; cbn [cas_retry stored].
  - destruct (again c) eqn:Ha; [| now apply left_without_store].
    rewrite cas_weak_equal. now apply left_after_store.
  - destruct (again c) eqn:Ha; [| now apply left_without_store].
    destruct i as [| v]; cbn [is_spurious disturb stored].
    + rewrite cas_weak_spurious. apply IH.
    + destruct (Z.eq_dec v c) as [-> | Hne].
      * rewrite cas_weak_equal. now apply left_after_store.
      * rewrite (cas_weak_differ v c _ Hne). apply left_with_later, IH.
Qed.

(** Without company the loop is a single conditional store. *)
Lemma cas_retry_alone (c : Z) :
  cas_retry again desired [] c c = if again c then (desired c, c) else (c, c).
Proof.
  cbn [cas_retry]. destruct (again c); [| reflexivity].
  rewrite cas_weak_equal. reflexivity.
Qed.

End RetryLoop.

Lemma claim_slot_spec (race : list interference) (cell : Z) :
  In (snd (claim_slot race cell)) (cell :: stored race)
  /\ (0 < snd (claim_slot race cell) ->
      fst (claim_slot race cell) = snd (claim_slot race cell) - 1)
  /\ (snd (claim_slot race cell) <= 0 ->
      fst (claim_slot race cell) = snd (claim_slot race cell)).
Proof.
  unfold claim_slot.
  destruct (cas_retry_spec (fun e => 0 <? e) (fun e => e - 1) race cell)
    as (A & B & C).
  split; [exact A |]. split; intros H.
  - apply B. apply Z.ltb_lt. exact H.
  - apply C. apply Z.ltb_ge. exact H.
Qed.

Lemma claim_slot_nonneg (race : list interference) (cell : Z) :
  0 <= cell -> Forall (fun v => 0 <= v) (stored race) ->
  0 <= fst (claim_slot race cell).
Proof.
  intros Hc Hr. destruct (claim_slot_spec race cell) as (A & B & C).
  assert (He : 0 <= snd (claim_slot race cell)).
  { destruct A as [<- | A]; [exact Hc |].
    rewrite Forall_forall in Hr. apply Hr. exact A. }
  destruct (Z.ltb_spec 0 (snd (claim_slot race cell))) as [Hpos | Hle].
  - rewrite (B Hpos). lia.
  - rewrite (C Hle). exact He.
Qed.

(** ** New jobs *)

Lemma remove_thread_frame (id : thread_id) (ts : list thread_id) :
  forall s,
    (length (fst (remove_thread id ts s)) <= length ts)%nat
    /\ exists cs, snd (remove_thread id ts s) = set_calls (calls s ++ cs) s.
Proof.
  induction ts as [| t ts IH]; intros s; simpl.
  - split; [lia |]. exists []. rewrite app_nil_r. symmetry. apply set_calls_calls.
  - destruct (Nat.eqb t id).
    + destruct (IH (emit (ThreadDetach t) s)) as [L [cs E]]. split; [lia |].
      exists ([ThreadDetach t] ++ cs). rewrite E. log_calls.
    + destruct (IH s) as [L [cs E]].
      destruct (remove_thread id ts s) as [kept s1]. simpl in *.
      split; [lia |]. exists cs. exact E.
Qed.

Lemma start_thread_frame (s : pool) :
  m_threads_to_exit (start_thread s) = m_threads_to_exit s
  /\ m_max_threads (start_thread s) = m_max_threads s
  /\ m_threads (start_thread s) = m_threads s ++ [threads_started s].
Proof. unfold start_thread. destruct (threads_empty s); repeat split. Qed.

Lemma start_threads_frame (n : nat) (queue_size : Z) :
  forall i s,
    m_threads_to_exit (start_threads n queue_size i s) = m_threads_to_exit s
    /\ m_max_threads (start_threads n queue_size i s) = m_max_threads s
    /\ (registry_fits s -> fits_int (m_max_threads s) ->
        registry_fits (start_threads n queue_size i s)).
Proof.
  induction n as [| n IH]; intros i s; simpl.
  - repeat split; auto.
  - destruct (i <? queue_size); simpl; [| repeat split; auto].
    destruct (Z.ltb_spec (threads_size s) (m_max_threads s)) as [Hlt | Hge];
      [| repeat split; auto].
    destruct (IH (i + 1) (start_thread s)) as (A & B & C).
    destruct (start_thread_frame s) as (E1 & E2 & E3).
    rewrite A, B. split; [exact E1 |]. split; [exact E2 |].
    intros Hfit Hmax. apply C.
    + unfold registry_fits. rewrite E3, length_app. simpl.
      rewrite (threads_size_fits s Hfit) in Hlt.
      unfold fits_int in Hmax. lia.
    + rewrite E2. exact Hmax.
Qed.

(** The growth loop is given enough passes: with one more it does the same,
    so it has ended because its test failed. *)
Lemma start_threads_runs_out (n : nat) (queue_size : Z) :
  forall i s, (Z.to_nat (queue_size - i) <= n)%nat ->
    start_threads (S n) queue_size i s = start_threads n queue_size i s.
Proof.
  induction n as [| n IH]; intros i s Hn.
  - simpl. destruct (Z.ltb_spec i queue_size); [lia | reflexivity].
  - change (start_threads (S (S n)) queue_size i s) with
      (if (i <? queue_size) && (threads_size s <? m_max_threads s)
       then start_threads (S n) queue_size (i + 1) (start_thread s) else s).
    change (start_threads (S n) queue_size i s) with
      (if (i <? queue_size) && (threads_size s <? m_max_threads s)
       then start_threads n queue_size (i + 1) (start_thread s) else s).
    destruct ((i <? queue_size) && (threads_size s <? m_max_threads s)) eqn:Hc;
      [| reflexivity].
    apply andb_prop in Hc. destruct Hc as [Hi _]. apply Z.ltb_lt in Hi.
    apply IH. lia.
Qed.

(** The value [job_queued] leaves in [m_threads_to_exit]. *)
Lemma job_queued_to_exit (race : list interference) (q : Z) (s : pool) :
  m_threads_to_exit (job_queued race q s)
  = if (q <=? m_num_idle_threads s) || m_abort s then m_threads_to_exit s
    else
      fst (cas_retry
             (fun e => std_max 0 (int_sub (m_num_idle_threads s) q) <? e)
             (fun _ => std_max 0 (int_sub (m_num_idle_threads s) q))
             race (m_threads_to_exit s) (m_threads_to_exit s)).
Proof.
  unfold job_queued. destruct (q <=? m_num_idle_threads s); [reflexivity |].
  change (m_abort (lock s)) with (m_abort s).
  destruct (m_abort s); [reflexivity |]. cbn [orb].
  change (m_num_idle_threads (lock s)) with (m_num_idle_threads s).
  change (m_threads_to_exit (lock s)) with (m_threads_to_exit s).
  destruct (cas_retry _ _ race _ _) as [cell e]. cbn [fst].
  change (m_threads_to_exit (unlock ?x)) with (m_threads_to_exit x).
  match goal with |- context [start_threads ?n ?qs ?i ?s0] =>
    destruct (start_threads_frame n qs i s0) as (A & _) end.
  exact A.
Qed.

(** C7.  [job_queued queue_size] called while [m_num_idle_threads] is at
    least [queue_size] returns the pool as it found it: the mutex is not
    taken, no thread is started, [m_threads_to_exit], the registry and the
    timer are left alone (no field changes and no call is recorded). *)
Theorem job_queued_fast_path (race : list interference) (queue_size : Z) (s : pool) :
  queue_size <= m_num_idle_threads s ->
  job_queued race queue_size s = s.
Proof.
  intros H. unfold job_queued. apply Z.leb_le in H. rewrite H. reflexivity.
Qed.

Lemma job_queued_fast_path_witness :
  2 <= m_num_idle_threads sample_pool
  /\ job_queued [Store 7] 2 sample_pool = sample_pool.
Proof.
  assert (H : 2 <= m_num_idle_threads sample_pool) by discriminate.
  exact (conj H (job_queued_fast_path [Store 7] 2 sample_pool H)).
Defined.

(** C6.  The correction step of [job_queued] only lowers
    [m_threads_to_exit].  With [bound = max 0 (m_num_idle_threads -
    queue_size)]: when the step has run (slow path, pool not aborting) the
    counter is at most [bound]; a counter that was at or below [bound] before
    the call keeps its value; and in every case the counter ends either with
    a value [v] it held before or during the call (the call stored nothing
    over it), or with [bound] stored over such a [v] larger than [bound].
    With no other thread at the counter it ends at or below its value before
    the call. *)
Theorem job_queued_only_lowers_exit_requests
    (race : list interference) (queue_size : Z) (s : pool) :
  fits_int (m_num_idle_threads s - queue_size) ->
  let bound := Z.max 0 (m_num_idle_threads s - queue_size) in
  let s' := job_queued race queue_size s in
  (m_num_idle_threads s < queue_size -> m_abort s = false ->
     m_threads_to_exit s' <= bound)
  /\ (m_threads_to_exit s <= bound ->
     m_threads_to_exit s' = m_threads_to_exit s)
  /\ (exists v, In v (m_threads_to_exit s :: stored race)
        /\ (m_threads_to_exit s' = v
            \/ (m_threads_to_exit s' = bound /\ bound < v)))
  /\ (stored race = [] -> m_threads_to_exit s' <= m_threads_to_exit s).
Proof.
  intros Hfit bound s'. subst s'. rewrite job_queued_to_exit.
  unfold int_sub. rewrite (to_int_fits _ Hfit), std_max_is_max. fold bound.
  destruct (cas_retry_spec (fun e => bound <? e) (fun _ => bound) race
              (m_threads_to_exit s)) as (A & B & C).
  destruct (cas_retry (fun e => bound <? e) (fun _ => bound) race
              (m_threads_to_exit s) (m_threads_to_exit s)) as [cell e] eqn:E.
  cbn [fst snd] in *.
  assert (Low : cell <= bound).
  { destruct (Z.ltb_spec bound e) as [Hlt | Hge].
    - rewrite (B eq_refl). lia.
    - rewrite (C eq_refl). exact Hge. }
  assert (Keep : m_threads_to_exit s <= bound -> cell = m_threads_to_exit s).
  { intros Hle.
    destruct race; cbn [cas_retry] in E;
      (destruct (Z.ltb_spec bound (m_threads_to_exit s)); [lia |]);
      now inversion E. }
  split; [| split; [| split]].
  - intros Hslow Hab. destruct (Z.leb_spec queue_size (m_num_idle_threads s));
      [lia |]. rewrite Hab. exact Low.
  - intros Hle. destruct (_ || _); [reflexivity | now apply Keep].
  - destruct (_ || _).
    + exists (m_threads_to_exit s). split; [now left | now left].
    + exists e. split; [exact A |].
      destruct (Z.ltb_spec bound e) as [Hlt | Hge].
      * right. split; [apply B; reflexivity | exact Hlt].
      * left. apply C. reflexivity.
  - intros Hquiet. rewrite Hquiet in A. destruct A as [A | []].
    destruct (_ || _); [lia |].
    destruct (Z.ltb_spec bound e) as [Hlt | Hge].
    + rewrite (B eq_refl). lia.
    + rewrite (C eq_refl). lia.
Qed.

Lemma job_queued_only_lowers_exit_requests_witness :
  fits_int (m_num_idle_threads pending_exits_pool - 5)
  /\ m_num_idle_threads pending_exits_pool < 5
  /\ m_abort pending_exits_pool = false
  /\ m_threads_to_exit pending_exits_pool = 3
  /\ m_threads_to_exit (job_queued [Spurious; Store 2] 5 pending_exits_pool)
     <= Z.max 0 (m_num_idle_threads pending_exits_pool - 5).
Proof.
  assert (H1 : fits_int (m_num_idle_threads pending_exits_pool - 5))
    by (vm_compute; split; discriminate).
  assert (H2 : m_num_idle_threads pending_exits_pool < 5) by reflexivity.
  assert (H3 : m_abort pending_exits_pool = false) by reflexivity.
  exact (conj H1 (conj H2 (conj H3 (conj eq_refl
    (proj1 (job_queued_only_lowers_exit_requests [Spurious; Store 2] 5
              pending_exits_pool H1) H2 H3))))).
Defined.

(** ** The exit counter stays non-negative *)

Lemma try_thread_exit_frame (race : list interference) (id : thread_id) (s : pool) :
  fst (try_thread_exit race id s) = (0 <? snd (claim_slot race (m_threads_to_exit s)))
  /\ m_threads_to_exit (snd (try_thread_exit race id s))
     = fst (claim_slot race (m_threads_to_exit s))
  /\ m_max_threads (snd (try_thread_exit race id s)) = m_max_threads s
  /\ (length (m_threads (snd (try_thread_exit race id s))) <= length (m_threads s))%nat.
Proof.
  unfold try_thread_exit.
  destruct (claim_slot race (m_threads_to_exit s)) as [cell e]. cbn [fst snd].
  destruct (0 <? e); [| repeat split; auto].
  change (m_abort (lock (set_to_exit cell s))) with (m_abort s).
  destruct (m_abort s); cbn [negb]; [repeat split; auto |].
  change (m_threads (lock (set_to_exit cell s))) with (m_threads s).
  destruct (remove_thread_frame id (m_threads s) (lock (set_to_exit cell s)))
    as [L [cs E]].
  destruct (remove_thread id (m_threads s) (lock (set_to_exit cell s)))
    as [kept s1]. cbn [fst snd] in *. subst s1.
  destruct (threads_empty _); repeat split; auto.
Qed.

Lemma abort_frame (jt : thread_id -> bool) (wait : bool) (s : pool) :
  m_threads_to_exit (snd (abort jt wait s))
    = (if m_abort s then m_threads_to_exit s else threads_size s)
  /\ m_max_threads (snd (abort jt wait s)) = m_max_threads s
  /\ (length (m_threads (snd (abort jt wait s))) <= length (m_threads s))%nat.
Proof.
  unfold abort. change (m_abort (lock s)) with (m_abort s).
  destruct (m_abort s); [repeat split; auto |].
  match goal with |- context [abort_each jt wait ?ts ?s0] =>
    destruct (abort_each_frame jt wait ts s0) as [cs E];
    destruct (abort_each jt wait ts s0) as [[| t] s1] end;
  cbn [snd] in *; subst s1; repeat split; auto. simpl. lia.
Qed.

Lemma job_queued_frame (race : list interference) (q : Z) (s : pool) :
  m_max_threads (job_queued race q s) = m_max_threads s
  /\ (registry_fits s -> fits_int (m_max_threads s) ->
      registry_fits (job_queued race q s)).
Proof.
  unfold job_queued. destruct (q <=? m_num_idle_threads s); [split; auto |].
  change (m_abort (lock s)) with (m_abort s).
  destruct (m_abort s); [split; auto |].
  destruct (cas_retry _ _ race _ _) as [cell e].
  match goal with |- context [start_threads ?n ?qs ?i ?s0] =>
    destruct (start_threads_frame n qs i s0) as (_ & B & C) end.
  split; [exact B |]. intros Hfit Hmax. apply C; assumption.
Qed.

Lemma reap_idle_threads_frame (ec : error_code) (s : pool) :
  m_max_threads (reap_idle_threads ec s) = m_max_threads s
  /\ m_threads (reap_idle_threads ec s) = m_threads s
  /\ (m_threads_to_exit (reap_idle_threads ec s) = m_threads_to_exit s
      \/ 0 < m_threads_to_exit (reap_idle_threads ec s)).
Proof.
  unfold reap_idle_threads. destruct (ec_set ec); [repeat split; auto |].
  change (m_abort (lock s)) with (m_abort s).
  destruct (m_abort s); [repeat split; auto |].
  change (threads_empty (lock s)) with (threads_empty s).
  destruct (threads_empty s); [repeat split; auto |].
  cbv zeta.
  match goal with |- context [?m <=? 0] =>
    destruct (Z.leb_spec m 0) as [Hle | Hpos]; [repeat split; auto |] end.
  split; [reflexivity |]. split; [reflexivity |]. right.
  change (m_threads_to_exit (unlock (stop_threads ?n ?x))) with n.
  rewrite std_max_is_max. cbn in Hpos |- *. lia.
Qed.

Lemma set_max_threads_frame (i : Z) (s : pool) :
  m_threads (set_max_threads i s) = m_threads s
  /\ (fits_int i -> fits_int (m_max_threads s) ->
      fits_int (m_max_threads (set_max_threads i s)))
  /\ (fits_int (threads_size s - i) -> 0 <= m_threads_to_exit s ->
      0 <= m_threads_to_exit (set_max_threads i s)).
Proof.
  unfold set_max_threads.
  change (m_max_threads (lock s)) with (m_max_threads s).
  change (threads_size (set_max i (lock s))) with (threads_size s).
  destruct (i =? m_max_threads s);
    [split; [reflexivity | split; [intros _ H; exact H | intros _ H; exact H]] |].
  destruct (Z.ltb_spec (threads_size s) i) as [Hlt | Hge];
    [split; [reflexivity | split; [intros H _; exact H | intros _ H; exact H]] |].
  split; [reflexivity |]. split; [intros H _; exact H |].
  intros Hfit _.
  change (m_threads_to_exit (unlock (stop_threads ?n ?x))) with n.
  unfold int_sub. rewrite (to_int_fits _ Hfit). lia.
Qed.

(** Each writer, on a call C++ gives a meaning to, keeps the exit counter
    non-negative. *)
Lemma perform_exit_nonneg (w : writer) (s : pool) :
  0 <= m_threads_to_exit s -> registry_fits s -> defined w s ->
  0 <= m_threads_to_exit (perform w s).
Proof.
  intros Hexit Hreg Hdef.
  destruct w as [race id | i | jt wait | ec | race q]; cbn [perform defined] in *.
  - destruct (try_thread_exit_frame race id s) as (_ & A & _).
    rewrite A. now apply claim_slot_nonneg.
  - destruct Hdef as [_ Hsub].
    destruct (set_max_threads_frame i s) as (_ & _ & C). now apply C.
  - destruct (abort_frame jt wait s) as (A & _). rewrite A.
    destruct (m_abort s); [exact Hexit |].
    rewrite (threads_size_fits s Hreg). lia.
  - destruct (reap_idle_threads_frame ec s) as (_ & _ & [-> | C]); lia.
  - rewrite job_queued_to_exit. destruct (_ || _); [exact Hexit |].
    match goal with |- context [cas_retry ?a ?d race ?c ?c] =>
      destruct (cas_retry_spec a d race c) as (S1 & S2 & S3);
      destruct (cas_retry a d race c c) as [cell e] end.
    cbn [fst snd] in *.
    assert (He : 0 <= e).
    { destruct S1 as [<- | S1]; [exact Hexit |].
      rewrite Forall_forall in Hdef. now apply Hdef. }
    match type of S2 with (?b <? e) = true -> _ =>
      destruct (Z.ltb_spec b e) as [Hlt | Hge];
      [rewrite (S2 eq_refl); rewrite std_max_is_max; lia
      | rewrite (S3 eq_refl); exact He] end.
Qed.

(** ... and the registry countable and the cap an [int]. *)
Lemma perform_ok (w : writer) (s : pool) :
  pool_ok s -> defined w s -> pool_ok (perform w s).
Proof.
  intros (Hexit & Hreg & Hmax) Hdef.
  split; [now apply perform_exit_nonneg |].
  unfold registry_fits in *.
  destruct w as [race id | i | jt wait | ec | race q]; cbn [perform defined] in *.
  - destruct (try_thread_exit_frame race id s) as (_ & _ & B & C).
    rewrite B. split; [lia | exact Hmax].
  - destruct Hdef as [Hi _].
    destruct (set_max_threads_frame i s) as (A & B & _).
    rewrite A. split; [exact Hreg | now apply B].
  - destruct (abort_frame jt wait s) as (_ & B & C). rewrite B.
    split; [lia | exact Hmax].
  - destruct (reap_idle_threads_frame ec s) as (A & B & _). rewrite A, B.
    split; assumption.
  - destruct (job_queued_frame race q s) as (A & B). rewrite A.
    split; [now apply B | exact Hmax].
Qed.

Lemma new_pool_ok : pool_ok new_pool.
Proof.
  unfold pool_ok, registry_fits, fits_int, int_min, int_max. simpl. lia.
Qed.

Lemma perform_all_ok (ws : list writer) :
  forall s, pool_ok s -> all_defined ws s -> pool_ok (perform_all ws s).
Proof.
  induction ws as [| w ws IH]; intros s Hok Hdef; simpl in *; [exact Hok |].
  destruct Hdef as [Hw Hws]. apply IH; [now apply perform_ok | exact Hws].
Qed.

(** C4.  [m_threads_to_exit] is never negative.
    The exit claim: [try_thread_exit] answers [true] exactly when the value
    [to_exit] it last saw in the counter is positive; it has then stored
    [to_exit - 1] over it; when it answers [false] it has stored nothing,
    the counter still holds the non-positive value it saw.  Left alone (no
    other thread at the counter), the value it sees is the one the counter
    had at the call.
    The writers: a call of the exit claim, of [set_max_threads], of [abort],
    of the reaper or of [job_queued] on a pool whose counter is non-negative
    leaves it non-negative; so it is non-negative after any sequence of such
    calls on a new pool. *)
Theorem threads_to_exit_never_negative :
  (forall race id s,
     let to_exit := snd (claim_slot race (m_threads_to_exit s)) in
     let s' := snd (try_thread_exit race id s) in
     fst (try_thread_exit race id s) = (0 <? to_exit)
     /\ In to_exit (m_threads_to_exit s :: stored race)
     /\ (0 < to_exit -> m_threads_to_exit s' = to_exit - 1)
     /\ (to_exit <= 0 -> m_threads_to_exit s' = to_exit))
  /\ (forall id s,
       fst (try_thread_exit [] id s) = (0 <? m_threads_to_exit s)
       /\ m_threads_to_exit (snd (try_thread_exit [] id s))
          = (if 0 <? m_threads_to_exit s then m_threads_to_exit s - 1
             else m_threads_to_exit s))
  /\ (forall w s,
       0 <= m_threads_to_exit s -> registry_fits s -> defined w s ->
       0 <= m_threads_to_exit (perform w s))
  /\ (forall ws,
       all_defined ws new_pool ->
       0 <= m_threads_to_exit (perform_all ws new_pool)).
Proof.
  assert (Claim : forall race id s,
     let to_exit := snd (claim_slot race (m_threads_to_exit s)) in
     let s' := snd (try_thread_exit race id s) in
     fst (try_thread_exit race id s) = (0 <? to_exit)
     /\ In to_exit (m_threads_to_exit s :: stored race)
     /\ (0 < to_exit -> m_threads_to_exit s' = to_exit - 1)
     /\ (to_exit <= 0 -> m_threads_to_exit s' = to_exit)).
  { intros race id s to_exit s'. subst to_exit s'.
    destruct (try_thread_exit_frame race id s) as (A & B & _).
    destruct (claim_slot_spec race (m_threads_to_exit s)) as (C & D & E).
    rewrite B. repeat split; assumption. }
  split; [exact Claim |]. split; [| split].
  - intros id s. destruct (Claim [] id s) as (A & B & C & D).
    cbv zeta in *. simpl in B. destruct B as [B | []].
    rewrite <- B in *. split; [exact A |].
    destruct (Z.ltb_spec 0 (m_threads_to_exit s)); auto.
  - exact perform_exit_nonneg.
  - intros ws Hdef.
    exact (proj1 (perform_all_ok ws new_pool new_pool_ok Hdef)).
Qed.

Lemma threads_to_exit_never_negative_witness :
  all_defined sample_calls new_pool
  /\ m_threads_to_exit (perform_all sample_calls new_pool) = 1
  /\ 0 <= m_threads_to_exit (perform_all sample_calls new_pool).
Proof.
  assert (H : all_defined sample_calls new_pool).
  { repeat split; try (vm_compute; discriminate); constructor. }
  exact (conj H (conj eq_refl
    (proj2 (proj2 (proj2 threads_to_exit_never_negative)) sample_calls H))).
Defined.

(** ** Growth *)

(** Lay a pool out field by field, innermost update first, the recorded
    calls as one list. *)
Ltac lay_out :=
  cbv [lock unlock stop_threads emit set_calls set_threads set_to_exit
       set_abort set_max set_min_idle set_num_idle set_started
       m_max_threads m_threads_to_exit m_abort m_num_idle_threads
       m_min_idle_threads m_threads m_queued_jobs threads_started calls];
  rewrite <- ?app_assoc; cbn [app]; try reflexivity.

Lemma grown_none (s : pool) : grown 0 s = s.
Proof.
  unfold grown. cbn [Nat.eqb negb seq map Nat.add]. rewrite andb_false_r.
  cbn [app]. rewrite !app_nil_r. destruct s; reflexivity.
Qed.

Lemma start_thread_grown (s : pool) : start_thread s = grown 1 s.
Proof.
  unfold start_thread, grown. cbn [Nat.eqb negb seq map Nat.add].
  rewrite andb_true_r. destruct (threads_empty s); lay_out.
Qed.

Lemma threads_empty_app (s : pool) (x : thread_id) (s0 : pool) :
  m_threads s0 = m_threads s ++ [x] -> threads_empty s0 = false.
Proof.
  intros H. unfold threads_empty. rewrite H.
  destruct (m_threads s); reflexivity.
Qed.

Lemma grown_more (k : nat) (s : pool) : grown k (grown 1 s) = grown (S k) s.
Proof.
  unfold grown at 1.
  rewrite (threads_empty_app s (threads_started s) (grown 1 s) eq_refl).
  unfold grown. cbn [Nat.eqb negb andb seq map Nat.add].
  rewrite andb_true_r.
  unfold set_calls, set_threads, set_started. cbn.
  rewrite <- !app_assoc. cbn. rewrite Nat.add_succ_r.
  destruct (threads_empty s); reflexivity.
Qed.

(** The growth loop, given enough passes, starts [growth] threads. *)
Lemma start_threads_exact (queue_size : Z) (n : nat) :
  forall i s,
    registry_fits s -> fits_int (m_max_threads s) ->
    (Z.to_nat (queue_size - i) <= n)%nat ->
    start_threads n queue_size i s
    = grown (Z.to_nat (Z.min (queue_size - i)
                         (m_max_threads s - Z.of_nat (length (m_threads s))))) s.
Proof.
  induction n as [| n IH]; intros i s Hreg Hmax Hn; cbn [start_threads].
  - replace (Z.to_nat _) with 0%nat by lia. symmetry. apply grown_none.
  - rewrite (threads_size_fits s Hreg).
    destruct (Z.ltb_spec i queue_size) as [Hi | Hi];
      [| replace (Z.to_nat _) with 0%nat by lia; symmetry; apply grown_none].
    destruct (Z.ltb_spec (Z.of_nat (length (m_threads s))) (m_max_threads s))
      as [Hc | Hc];
      [| replace (Z.to_nat _) with 0%nat by lia; symmetry; apply grown_none].
    cbn [andb].
    destruct (start_thread_frame s) as (_ & E2 & E3).
    assert (Hlen : length (m_threads (start_thread s)) = S (length (m_threads s))).
    { rewrite E3, length_app. simpl. lia. }
    rewrite IH.
    + rewrite E2, Hlen, start_thread_grown, grown_more. f_equal. lia.
    + unfold registry_fits in *. rewrite Hlen. unfold fits_int in Hmax. lia.
    + rewrite E2. exact Hmax.
    + lia.
Qed.

(** [job_queued] past its two early returns. *)
Lemma job_queued_slow (race : list interference) (queue_size : Z) (s : pool) :
  m_num_idle_threads s < queue_size -> m_abort s = false ->
  registry_fits s -> fits_int (m_max_threads s) ->
  job_queued race queue_size s
  = unlock (grown (growth queue_size s)
              (set_to_exit (m_threads_to_exit (job_queued race queue_size s))
                 (lock s))).
Proof.
  intros Hidle Hab Hreg Hmax. rewrite job_queued_to_exit.
  unfold job_queued. destruct (Z.leb_spec queue_size (m_num_idle_threads s)); [lia |].
  change (m_abort (lock s)) with (m_abort s). rewrite Hab. cbn [orb].
  change (m_num_idle_threads (lock s)) with (m_num_idle_threads s).
  change (m_threads_to_exit (lock s)) with (m_threads_to_exit s).
  destruct (cas_retry _ _ race _ _) as [cell e]. cbn [fst].
  change (m_num_idle_threads (set_to_exit cell (lock s)))
    with (m_num_idle_threads s).
  rewrite start_threads_exact; [reflexivity | exact Hreg | exact Hmax | lia].
Qed.

(** X1.  [job_queued queue_size] on a pool that is not aborting and has
    fewer idle workers than [queue_size] starts exactly
    [min (queue_size - idle) (cap - workers)] threads (none if that is not
    positive): they are appended to the registry in the order started, the
    reaper timer is armed once, before the first of them, exactly when the
    registry was empty, and all of it happens between one lock and one
    unlock.  The cap and the idle counters are not touched. *)
Theorem job_queued_starts_missing_workers
    (race : list interference) (queue_size : Z) (s : pool) :
  m_num_idle_threads s < queue_size -> m_abort s = false ->
  registry_fits s -> fits_int (m_max_threads s) ->
  let k := growth queue_size s in
  let s' := job_queued race queue_size s in
  m_threads s' = m_threads s ++ seq (threads_started s) k
  /\ threads_started s' = (k + threads_started s)%nat
  /\ calls s'
     = calls s ++ [MutexLock]
       ++ (if threads_empty s && negb (Nat.eqb k 0)
           then [TimerExpiresAfter 60; TimerAsyncWait] else [])
       ++ map ThreadStart (seq (threads_started s) k) ++ [MutexUnlock]
  /\ m_max_threads s' = m_max_threads s
  /\ m_num_idle_threads s' = m_num_idle_threads s
  /\ m_min_idle_threads s' = m_min_idle_threads s
  /\ m_abort s' = false.
Proof.
  intros Hidle Hab Hreg Hmax k s'. subst s'.
  rewrite (job_queued_slow race queue_size s Hidle Hab Hreg Hmax). fold k.
  unfold grown.
  change (threads_empty (set_to_exit _ (lock s))) with (threads_empty s).
  repeat split; try assumption.
  lay_out.
Qed.

Lemma job_queued_starts_missing_workers_witness :
  m_num_idle_threads pending_exits_pool < 9
  /\ m_abort pending_exits_pool = false
  /\ registry_fits pending_exits_pool
  /\ fits_int (m_max_threads pending_exits_pool)
  /\ growth 9 pending_exits_pool = 1%nat
  /\ m_threads (job_queued [] 9 pending_exits_pool)
     = m_threads pending_exits_pool ++ [4%nat].
Proof.
  assert (H1 : m_num_idle_threads pending_exits_pool < 9) by reflexivity.
  assert (H2 : m_abort pending_exits_pool = false) by reflexivity.
  assert (H3 : registry_fits pending_exits_pool) by (vm_compute; discriminate).
  assert (H4 : fits_int (m_max_threads pending_exits_pool))
    by (vm_compute; split; discriminate).
  exact (conj H1 (conj H2 (conj H3 (conj H4 (conj eq_refl
    (proj1 (job_queued_starts_missing_workers [] 9 pending_exits_pool
              H1 H2 H3 H4))))))).
Defined.

(** X2.  [job_queued] never removes a worker and never grows the registry
    beyond the cap: afterwards the registry holds at most
    [max (workers before) m_max_threads] handles; a pool within its cap
    stays within it. *)
Theorem job_queued_respects_cap
    (race : list interference) (queue_size : Z) (s : pool) :
  registry_fits s -> fits_int (m_max_threads s) ->
  let s' := job_queued race queue_size s in
  (length (m_threads s) <= length (m_threads s'))%nat
  /\ Z.of_nat (length (m_threads s'))
     <= Z.max (Z.of_nat (length (m_threads s))) (m_max_threads s)
  /\ (Z.of_nat (length (m_threads s)) <= m_max_threads s ->
      Z.of_nat (length (m_threads s')) <= m_max_threads s).
Proof.
  intros Hreg Hmax s'.
  assert (E : length (m_threads s') = length (m_threads s)
              \/ length (m_threads s')
                 = (length (m_threads s) + growth queue_size s)%nat).
  { subst s'. destruct (Z.ltb_spec (m_num_idle_threads s) queue_size) as [Hi | Hi].
    - destruct (m_abort s) eqn:Hab.
      + left. unfold job_queued.
        destruct (Z.leb_spec queue_size (m_num_idle_threads s)); [reflexivity |].
        change (m_abort (lock s)) with (m_abort s). rewrite Hab. reflexivity.
      + right. rewrite (job_queued_slow race queue_size s Hi Hab Hreg Hmax).
        unfold grown. cbn. rewrite length_app, length_seq. reflexivity.
    - left. unfold job_queued. apply Z.leb_le in Hi. rewrite Hi. reflexivity. }
  unfold growth in E. destruct E as [E | E]; rewrite E; lia.
Qed.

Lemma job_queued_respects_cap_witness :
  registry_fits pending_exits_pool
  /\ fits_int (m_max_threads pending_exits_pool)
  /\ Z.of_nat (length (m_threads (job_queued [] 9 pending_exits_pool)))
     <= Z.max 4 5.
Proof.
  assert (H1 : registry_fits pending_exits_pool) by (vm_compute; discriminate).
  assert (H2 : fits_int (m_max_threads pending_exits_pool))
    by (vm_compute; split; discriminate).
  exact (conj H1 (conj H2
    (proj1 (proj2 (job_queued_respects_cap [] 9 pending_exits_pool H1 H2))))).
Defined.

(** X3.  A [job_queued] that finds fewer idle workers than jobs, on a pool
    that is not aborting, withdraws every pending exit request: the bound
    [max 0 (idle - queue_size)] is 0 there, so [m_threads_to_exit] is 0
    afterwards (other threads may meanwhile have stored any non-negative
    value). *)
Theorem job_queued_slow_path_cancels_exits
    (race : list interference) (queue_size : Z) (s : pool) :
  m_num_idle_threads s < queue_size -> m_abort s = false ->
  fits_int (m_num_idle_threads s - queue_size) ->
  0 <= m_threads_to_exit s -> Forall (fun v => 0 <= v) (stored race) ->
  m_threads_to_exit (job_queued race queue_size s) = 0.
Proof.
  intros Hidle Hab Hfit Hexit Hrace. rewrite job_queued_to_exit.
  destruct (Z.leb_spec queue_size (m_num_idle_threads s)); [lia |].
  rewrite Hab. cbn [orb].
  unfold int_sub. rewrite (to_int_fits _ Hfit), std_max_is_max.
  replace (Z.max 0 (m_num_idle_threads s - queue_size)) with 0 by lia.
  destruct (cas_retry_spec (fun e => 0 <? e) (fun _ => 0) race
              (m_threads_to_exit s)) as (A & B & C).
  destruct (cas_retry (fun e => 0 <? e) (fun _ => 0) race
              (m_threads_to_exit s) (m_threads_to_exit s)) as [cell e].
  cbn [fst snd] in *.
  assert (He : 0 <= e).
  { destruct A as [<- | A]; [exact Hexit |].
    rewrite Forall_forall in Hrace. now apply Hrace. }
  destruct (Z.ltb_spec 0 e) as [Hlt | Hge].
  - apply B. reflexivity.
  - rewrite (C eq_refl). lia.
Qed.

Lemma job_queued_slow_path_cancels_exits_witness :
  m_num_idle_threads pending_exits_pool < 9
  /\ m_abort pending_exits_pool = false
  /\ fits_int (m_num_idle_threads pending_exits_pool - 9)
  /\ 0 <= m_threads_to_exit pending_exits_pool
  /\ Forall (fun v => 0 <= v) (stored [Store 5; Spurious])
  /\ m_threads_to_exit (job_queued [Store 5; Spurious] 9 pending_exits_pool) = 0.
Proof.
  assert (H1 : m_num_idle_threads pending_exits_pool < 9) by reflexivity.
  assert (H2 : m_abort pending_exits_pool = false) by reflexivity.
  assert (H3 : fits_int (m_num_idle_threads pending_exits_pool - 9))
    by (vm_compute; split; discriminate).
  assert (H4 : 0 <= m_threads_to_exit pending_exits_pool) by discriminate.
  assert (H5 : Forall (fun v => 0 <= v) (stored [Store 5; Spurious]))
    by (repeat constructor; discriminate).
  exact (conj H1 (conj H2 (conj H3 (conj H4 (conj H5
    (job_queued_slow_path_cancels_exits [Store 5; Spurious] 9
       pending_exits_pool H1 H2 H3 H4 H5)))))).
Defined.

(** ** Shutdown, in full *)

Lemma abort_each_returns (jt : thread_id -> bool) (wait : bool)
    (ts : list thread_id) :
  forall s,
    (wait = true -> Forall (fun t => jt t = false) ts) ->
    abort_each jt wait ts s
    = (Returned,
       set_calls (calls s ++ (if wait then joined ts else map ThreadDetach ts)) s).
Proof.
  induction ts as [| t ts IH]; intros s Hjt; cbn [abort_each].
  - destruct wait; cbn; rewrite app_nil_r, set_calls_calls; reflexivity.
  - destruct wait.
    + specialize (Hjt eq_refl). inversion Hjt as [| ? ? Ht Hts]; subst.
      rewrite Ht, IH by (intros _; exact Hts). f_equal. lay_out.
    + rewrite IH by discriminate. f_equal. lay_out.
Qed.

Lemma abort_each_throws (jt : thread_id -> bool) (before : list thread_id) :
  forall t after s,
    Forall (fun u => jt u = false) before -> jt t = true ->
    abort_each jt true (before ++ t :: after) s
    = (Threw t,
       set_calls (calls s ++ joined before ++ [MutexUnlock; ThreadJoin t]) s).
Proof.
  induction before as [| u before IH]; intros t after s Hb Ht; cbn [abort_each app].
  - rewrite Ht. f_equal. lay_out.
  - inversion Hb as [| ? ? Hu Hb']; subst. rewrite Hu, IH by assumption.
    f_equal. lay_out.
Qed.

(** X4.  [abort] on a pool that is not yet aborting, when no [join] throws:
    it returns with the flag set, the timer cancelled, an exit requested
    for every registered worker and the waiters notified, then every
    registered thread joined ([wait]) or detached (no [wait]) exactly once,
    in registry order, and the registry empty.  With [wait] the mutex is
    released around each join and held again afterwards. *)
Theorem abort_drains_registry
    (jt : thread_id -> bool) (wait : bool) (s : pool) :
  m_abort s = false ->
  (wait = true -> Forall (fun t => jt t = false) (m_threads s)) ->
  abort jt wait s
  = (Returned,
     set_calls
       (calls s ++ [MutexLock; TimerCancel; NotifyAll]
        ++ (if wait then joined (m_threads s) else map ThreadDetach (m_threads s))
        ++ [MutexUnlock])
       (set_threads [] (set_to_exit (threads_size s) (set_abort true s)))).
Proof.
  intros Hab Hjt. unfold abort.
  change (m_abort (lock s)) with (m_abort s). rewrite Hab.
  change (threads_size (emit TimerCancel (set_abort true (lock s))))
    with (threads_size s).
  generalize (threads_size s). intros c.
  rewrite abort_each_returns by exact Hjt. f_equal.
  lay_out.
Qed.

Lemma abort_drains_registry_witness :
  m_abort busy_over_cap_pool = false
  /\ (true = true -> Forall (fun t => (fun _ : thread_id => false) t = false)
                       (m_threads busy_over_cap_pool))
  /\ abort (fun _ => false) true busy_over_cap_pool
     = (Returned,
        mk_pool 1 3 true 0 0 [] [] 3
          [MutexLock; TimerCancel; NotifyAll;
           MutexUnlock; ThreadJoin 0%nat; MutexLock;
           MutexUnlock; ThreadJoin 1%nat; MutexLock;
           MutexUnlock; ThreadJoin 2%nat; MutexLock;
           MutexUnlock]).
Proof.
  assert (H1 : m_abort busy_over_cap_pool = false) by reflexivity.
  assert (H2 : true = true -> Forall (fun t => (fun _ : thread_id => false) t = false)
                                (m_threads busy_over_cap_pool))
    by (intros _; repeat constructor).
  exact (conj H1 (conj H2
    (abort_drains_registry (fun _ => false) true busy_over_cap_pool H1 H2))).
Defined.

(** X5.  [abort(true)] when [join] throws for the thread [t], the first
    one in the registry for which it does: the exception leaves [abort]
    after the threads before [t] have been joined; the flag is set, the
    exit request for every worker has been issued and the waiters notified,
    but the registry is not cleared (it still holds every handle) and the
    mutex is left released. *)
Theorem abort_join_failure
    (jt : thread_id -> bool) (before after : list thread_id) (t : thread_id)
    (s : pool) :
  m_abort s = false ->
  m_threads s = before ++ t :: after ->
  Forall (fun u => jt u = false) before -> jt t = true ->
  abort jt true s
  = (Threw t,
     set_calls
       (calls s ++ [MutexLock; TimerCancel; NotifyAll]
        ++ joined before ++ [MutexUnlock; ThreadJoin t])
       (set_to_exit (threads_size s) (set_abort true s))).
Proof.
  intros Hab Hts Hb Ht. unfold abort.
  change (m_abort (lock s)) with (m_abort s). rewrite Hab.
  change (threads_size (emit TimerCancel (set_abort true (lock s))))
    with (threads_size s).
  generalize (threads_size s). intros c.
  change (m_threads (stop_threads _ _)) with (m_threads s). rewrite Hts.
  rewrite abort_each_throws by assumption. f_equal.
  lay_out.
Qed.

Lemma abort_join_failure_witness :
  m_abort busy_over_cap_pool = false
  /\ m_threads busy_over_cap_pool = [0%nat] ++ 1%nat :: [2%nat]
  /\ Forall (fun u => Nat.eqb u 1 = false) [0%nat]
  /\ Nat.eqb 1 1 = true
  /\ abort (fun u => Nat.eqb u 1) true busy_over_cap_pool
     = (Threw 1%nat,
        mk_pool 1 3 true 0 0 [0%nat; 1%nat; 2%nat] [] 3
          [MutexLock; TimerCancel; NotifyAll;
           MutexUnlock; ThreadJoin 0%nat; MutexLock;
           MutexUnlock; ThreadJoin 1%nat]).
Proof.
  assert (H1 : m_abort busy_over_cap_pool = false) by reflexivity.
  assert (H2 : m_threads busy_over_cap_pool = [0%nat] ++ 1%nat :: [2%nat])
    by reflexivity.
  assert (H3 : Forall (fun u => Nat.eqb u 1 = false) [0%nat])
    by (repeat constructor).
  assert (H4 : Nat.eqb 1 1 = true) by reflexivity.
  exact (conj H1 (conj H2 (conj H3 (conj H4
    (abort_join_failure (fun u => Nat.eqb u 1) [0%nat] [2%nat] 1%nat
       busy_over_cap_pool H1 H2 H3 H4))))).
Defined.

(** ** The exit claim, in full *)

Lemma remove_thread_filter (id : thread_id) (ts : list thread_id) :
  forall s,
    remove_thread id ts s
    = (filter (fun t => negb (Nat.eqb t id)) ts,
       set_calls
         (calls s ++ map ThreadDetach (filter (fun t => Nat.eqb t id) ts)) s).
Proof.
  induction ts as [| t ts IH]; intros s; cbn [remove_thread filter map].
  - rewrite app_nil_r, set_calls_calls. reflexivity.
  - destruct (Nat.eqb t id); cbn [negb map].
    + rewrite IH. f_equal. lay_out.
    + rewrite IH. reflexivity.
Qed.

Lemma claim_slot_alone (cell : Z) :
  claim_slot [] cell = if 0 <? cell then (cell - 1, cell) else (cell, cell).
Proof.
  unfold claim_slot.
  exact (cas_retry_alone (fun e => 0 <? e) (fun e => e - 1) cell).
Qed.

(** A claim that finds a positive counter, on a pool that is not aborting. *)
Lemma try_thread_exit_claimed (race : list interference) (id : thread_id) (s : pool) :
  0 < snd (claim_slot race (m_threads_to_exit s)) -> m_abort s = false ->
  try_thread_exit race id s
  = (true,
     set_calls
       (calls s ++ [MutexLock]
        ++ map ThreadDetach (filter (fun t => Nat.eqb t id) (m_threads s))
        ++ (match filter (fun t => negb (Nat.eqb t id)) (m_threads s) with
            | [] => [TimerCancel]
            | _ :: _ => []
            end)
        ++ [MutexUnlock])
       (set_threads (filter (fun t => negb (Nat.eqb t id)) (m_threads s))
          (set_to_exit (snd (claim_slot race (m_threads_to_exit s)) - 1) s))).
Proof.
  intros Hpos Hab. unfold try_thread_exit.
  destruct (claim_slot_spec race (m_threads_to_exit s)) as (_ & B & _).
  specialize (B Hpos).
  destruct (claim_slot race (m_threads_to_exit s)) as [cell e].
  cbn [fst snd] in *. subst cell.
  apply Z.ltb_lt in Hpos. rewrite Hpos.
  change (m_abort (lock (set_to_exit (e - 1) s))) with (m_abort s).
  rewrite Hab. cbn [negb].
  change (m_threads (lock (set_to_exit (e - 1) s))) with (m_threads s).
  rewrite remove_thread_filter. unfold threads_empty. cbn [m_threads set_threads].
  destruct (filter (fun t => negb (Nat.eqb t id)) (m_threads s));
    f_equal; lay_out.
Qed.

(** A claim left alone at the counter. *)
Lemma try_thread_exit_alone (id : thread_id) (s : pool) :
  (m_threads_to_exit s <= 0 -> try_thread_exit [] id s = (false, s))
  /\ (0 < m_threads_to_exit s ->
      fst (try_thread_exit [] id s) = true
      /\ m_threads_to_exit (snd (try_thread_exit [] id s)) = m_threads_to_exit s - 1
      /\ m_max_threads (snd (try_thread_exit [] id s)) = m_max_threads s
      /\ m_abort (snd (try_thread_exit [] id s)) = m_abort s
      /\ (m_abort s = false ->
          m_threads (snd (try_thread_exit [] id s))
          = filter (fun t => negb (Nat.eqb t id)) (m_threads s))).
Proof.
  split; intros H.
  - assert (Hb : (0 <? m_threads_to_exit s) = false) by (apply Z.ltb_ge; exact H).
    unfold try_thread_exit. rewrite claim_slot_alone, Hb.
    cbv beta iota zeta. rewrite Hb. destruct s; reflexivity.
  - assert (Hb : (0 <? m_threads_to_exit s) = true) by (apply Z.ltb_lt; exact H).
    assert (Hc : claim_slot [] (m_threads_to_exit s)
                 = (m_threads_to_exit s - 1, m_threads_to_exit s))
      by (rewrite claim_slot_alone, Hb; reflexivity).
    destruct (try_thread_exit_frame [] id s) as (A & B & C & _).
    rewrite Hc in A, B. cbn [fst snd] in A, B.
    split; [rewrite A; exact Hb |]. split; [exact B |]. split; [exact C |].
    destruct (m_abort s) eqn:Hab.
    + split; [| discriminate]. unfold try_thread_exit. rewrite Hc.
      cbv beta iota zeta. rewrite Hb.
      change (m_abort (lock (set_to_exit (m_threads_to_exit s - 1) s)))
        with (m_abort s).
      rewrite Hab. exact Hab.
    + assert (Hpos : 0 < snd (claim_slot [] (m_threads_to_exit s)))
        by (rewrite Hc; exact H).
      rewrite (try_thread_exit_claimed [] id s Hpos Hab).
      split; [exact Hab |]. intros _. reflexivity.
Qed.

(** X6.  An exit claim that succeeds on a pool that is not aborting takes
    the claiming thread out of the registry: every handle with its id is
    detached and erased, the other handles stay, in their order; the caller
    is no longer registered; the reaper timer is cancelled exactly when the
    registry has become empty; the counter is one below the value the claim
    saw.  All registry work is done between one lock and one unlock. *)
Theorem try_thread_exit_removes_caller
    (race : list interference) (id : thread_id) (s : pool) :
  0 < snd (claim_slot race (m_threads_to_exit s)) -> m_abort s = false ->
  let s' := snd (try_thread_exit race id s) in
  fst (try_thread_exit race id s) = true
  /\ m_threads s' = filter (fun t => negb (Nat.eqb t id)) (m_threads s)
  /\ ~ In id (m_threads s')
  /\ (forall t, t <> id -> (In t (m_threads s') <-> In t (m_threads s)))
  /\ m_threads_to_exit s' = snd (claim_slot race (m_threads_to_exit s)) - 1
  /\ calls s'
     = calls s ++ [MutexLock]
       ++ map ThreadDetach (filter (fun t => Nat.eqb t id) (m_threads s))
       ++ (match m_threads s' with [] => [TimerCancel] | _ :: _ => [] end)
       ++ [MutexUnlock].
Proof.
  intros Hpos Hab s'. subst s'.
  rewrite (try_thread_exit_claimed race id s Hpos Hab). cbn [fst snd].
  split; [reflexivity |]. split; [reflexivity |].
  cbn [m_threads set_calls set_threads].
  split; [| split; [| split; reflexivity]].
  - intros Hin. apply filter_In in Hin. destruct Hin as [_ Hne].
    rewrite Nat.eqb_refl in Hne. discriminate.
  - intros t Hne. rewrite filter_In. split; [tauto |]. intros Hin.
    split; [exact Hin |]. apply Nat.eqb_neq in Hne. rewrite Hne. reflexivity.
Qed.

Lemma try_thread_exit_removes_caller_witness :
  0 < snd (claim_slot [Spurious] (m_threads_to_exit pending_exits_pool))
  /\ m_abort pending_exits_pool = false
  /\ try_thread_exit [Spurious] 2%nat pending_exits_pool
     = (true, mk_pool 5 2 false 3 0 [0%nat; 1%nat; 3%nat] [] 4
                [MutexLock; ThreadDetach 2%nat; MutexUnlock])
  /\ m_threads (snd (try_thread_exit [Spurious] 2%nat pending_exits_pool))
     = filter (fun t => negb (Nat.eqb t 2)) (m_threads pending_exits_pool).
Proof.
  assert (H1 : 0 < snd (claim_slot [Spurious] (m_threads_to_exit pending_exits_pool)))
    by reflexivity.
  assert (H2 : m_abort pending_exits_pool = false) by reflexivity.
  exact (conj H1 (conj H2 (conj eq_refl
    (proj1 (proj2 (try_thread_exit_removes_caller [Spurious] 2%nat
                     pending_exits_pool H1 H2)))))).
Defined.

(** X7.  Exit claims made one after the other on a counter holding [k >= 0]:
    the first [k] succeed and every later one fails, and the counter ends at
    [max 0 (k - number of claims)].  In particular, of two claims on a
    counter of 1 exactly the first succeeds. *)
Theorem exit_claims_succeed_up_to_request (ids : list thread_id) :
  forall s,
    0 <= m_threads_to_exit s ->
    fst (claim_each ids s)
    = map (fun j => Z.of_nat j <? m_threads_to_exit s) (seq 0 (length ids))
    /\ m_threads_to_exit (snd (claim_each ids s))
       = Z.max 0 (m_threads_to_exit s - Z.of_nat (length ids)).
Proof.
  induction ids as [| id ids IH]; intros s Hk; cbn [claim_each length seq map].
  - split; [reflexivity |]. cbn. lia.
  - destruct (try_thread_exit_alone id s) as [Hno Hyes].
    destruct (try_thread_exit [] id s) as [claimed s1] eqn:E1.
    assert (H1 : claimed = (0 <? m_threads_to_exit s)
                 /\ m_threads_to_exit s1
                    = Z.max 0 (m_threads_to_exit s - 1)).
    { destruct (Z.ltb_spec 0 (m_threads_to_exit s)) as [Hpos | Hle].
      - destruct (Hyes Hpos) as (A & B & _). cbn [fst snd] in A, B.
        split; [exact A | lia].
      - specialize (Hno Hle). inversion Hno; subst. split; [reflexivity | lia]. }
    destruct H1 as [Hc Ht].
    destruct (IH s1 ltac:(lia)) as [IH1 IH2].
    destruct (claim_each ids s1) as [rest s2]. cbn [fst snd] in *.
    split.
    + rewrite Hc, IH1. f_equal. rewrite <- seq_shift, map_map.
      apply map_ext. intros j. rewrite Ht.
      destruct (Z.ltb_spec (Z.of_nat j) (Z.max 0 (m_threads_to_exit s - 1)));
        destruct (Z.ltb_spec (Z.of_nat (S j)) (m_threads_to_exit s)); lia.
    + rewrite IH2, Ht. lia.
Qed.

Lemma exit_claims_succeed_up_to_request_witness :
  0 <= m_threads_to_exit last_worker_pool
  /\ m_threads_to_exit last_worker_pool = 1
  /\ fst (claim_each [7%nat; 8%nat] last_worker_pool) = [true; false].
Proof.
  assert (H : 0 <= m_threads_to_exit last_worker_pool) by discriminate.
  exact (conj H (conj eq_refl
    (proj1 (exit_claims_succeed_up_to_request [7%nat; 8%nat]
              last_worker_pool H)))).
Defined.

(** ** Shrinking to the cap *)

Lemma filter_out_absent (id : thread_id) (ts : list thread_id) :
  ~ In id ts -> filter (fun t => negb (Nat.eqb t id)) ts = ts.
Proof.
  induction ts as [| a ts IH]; intros Hn; cbn [filter]; [reflexivity |].
  destruct (Nat.eqb_spec a id) as [-> | Hne]; cbn [negb].
  - exfalso. apply Hn. now left.
  - rewrite IH; [reflexivity |]. intros H. apply Hn. now right.
Qed.

Lemma filter_out_present (id : thread_id) (ts : list thread_id) :
  NoDup ts -> In id ts ->
  S (length (filter (fun t => negb (Nat.eqb t id)) ts)) = length ts.
Proof.
  induction ts as [| a ts IH]; intros Hnd Hin; [destruct Hin |].
  apply NoDup_cons_iff in Hnd. destruct Hnd as [Ha Hnd]. cbn [filter].
  destruct (Nat.eqb_spec a id) as [-> | Hne]; cbn [negb length].
  - rewrite filter_out_absent by exact Ha. reflexivity.
  - destruct Hin as [-> | Hin]; [congruence |]. rewrite IH by assumption.
    reflexivity.
Qed.

Lemma try_thread_exit_threads (race : list interference) (id : thread_id) (s : pool) :
  threads_started (snd (try_thread_exit race id s)) = threads_started s
  /\ (m_threads (snd (try_thread_exit race id s)) = m_threads s
      \/ m_threads (snd (try_thread_exit race id s))
         = filter (fun t => negb (Nat.eqb t id)) (m_threads s)).
Proof.
  unfold try_thread_exit.
  destruct (claim_slot race (m_threads_to_exit s)) as [cell e].
  destruct (0 <? e); [| split; [reflexivity | now left]].
  change (m_abort (lock (set_to_exit cell s))) with (m_abort s).
  destruct (m_abort s); cbn [negb]; [split; [reflexivity | now left] |].
  change (m_threads (lock (set_to_exit cell s))) with (m_threads s).
  rewrite remove_thread_filter.
  destruct (threads_empty _); split; try reflexivity; now right.
Qed.

Lemma claim_each_subset (ids : list thread_id) :
  forall s x,
    In x (m_threads (snd (claim_each ids s))) -> In x (m_threads s).
Proof.
  induction ids as [| id ids IH]; intros s x; cbn [claim_each]; [auto |].
  destruct (try_thread_exit_threads [] id s) as [_ Hts].
  destruct (try_thread_exit [] id s) as [claimed s1].
  specialize (IH s1 x). destruct (claim_each ids s1) as [rest s2].
  cbn [snd] in *. intros Hx. specialize (IH Hx).
  destruct Hts as [-> | ->] in IH; [exact IH |].
  apply filter_In in IH. tauto.
Qed.

(** Distinct registered workers claiming no more exits than are requested:
    every claim succeeds and takes its worker out of the registry. *)
Lemma claim_each_shrinks (ids : list thread_id) :
  forall s,
    m_abort s = false -> NoDup (m_threads s) -> NoDup ids ->
    incl ids (m_threads s) ->
    Z.of_nat (length ids) <= m_threads_to_exit s ->
    fst (claim_each ids s) = repeat true (length ids)
    /\ (length (m_threads (snd (claim_each ids s))) + length ids)%nat
       = length (m_threads s)
    /\ m_threads_to_exit (snd (claim_each ids s))
       = m_threads_to_exit s - Z.of_nat (length ids)
    /\ m_max_threads (snd (claim_each ids s)) = m_max_threads s
    /\ (forall id, In id ids -> ~ In id (m_threads (snd (claim_each ids s)))).
Proof.
  induction ids as [| id ids IH]; intros s Hab Hnd Hids Hincl Hk;
    cbn [claim_each length repeat].
  - cbn. split; [reflexivity |]. split; [lia |]. split; [lia |].
    split; [reflexivity |]. intros id [].
  - apply NoDup_cons_iff in Hids. destruct Hids as [Hid Hids].
    cbn [length] in Hk.
    destruct (try_thread_exit_alone id s) as [_ Hyes].
    destruct (Hyes ltac:(lia)) as (A & B & C & D & E). specialize (E Hab).
    destruct (try_thread_exit [] id s) as [claimed s1]. cbn [fst snd] in *.
    assert (Hin : In id (m_threads s)) by (apply Hincl; now left).
    destruct (IH s1) as (I1 & I2 & I3 & I4 & I5).
    + congruence.
    + rewrite E. now apply NoDup_filter.
    + exact Hids.
    + intros x Hx. rewrite E. apply filter_In. split.
      * apply Hincl. now right.
      * destruct (Nat.eqb_spec x id) as [-> | _]; [contradiction | reflexivity].
    + lia.
    + destruct (claim_each ids s1) as [rest s2] eqn:Ec.
      assert (Hs2 : s2 = snd (claim_each ids s1)) by (rewrite Ec; reflexivity).
      cbn [fst snd] in *.
      pose proof (filter_out_present id (m_threads s) Hnd Hin) as Hlen.
      rewrite <- E in Hlen. unfold thread_id in *.
      split; [congruence |]. split; [lia |]. split; [lia |].
      split; [congruence |].
      intros x [<- | Hx]; [| now apply I5].
      intros Hx. rewrite Hs2 in Hx. apply claim_each_subset in Hx.
      rewrite E in Hx. apply filter_In in Hx. destruct Hx as [_ Hne].
      rewrite Nat.eqb_refl in Hne. discriminate.
Qed.

Lemma set_max_threads_shrinks (n : Z) (s : pool) :
  n <> m_max_threads s -> n <= threads_size s -> fits_int (threads_size s - n) ->
  set_max_threads n s
  = unlock (stop_threads (threads_size s - n) (set_max n (lock s))).
Proof.
  intros Hne Hge Hfit. unfold set_max_threads.
  change (m_max_threads (lock s)) with (m_max_threads s).
  change (threads_size (set_max n (lock s))) with (threads_size s).
  apply Z.eqb_neq in Hne. rewrite Hne.
  destruct (Z.ltb_spec (threads_size s) n); [lia |].
  unfold int_sub. rewrite (to_int_fits _ Hfit). reflexivity.
Qed.

(** X8.  Lowering the cap and letting the workers answer: after
    [set_max_threads n] on a pool of more than (or exactly) [n] distinct
    workers, exit claims by (workers - [n]) different registered workers all
    succeed, and they leave exactly [n] workers registered, none of the
    claimants among them, with no exit request pending and the cap at [n]. *)
Theorem shrink_reaches_cap (n : Z) (ids : list thread_id) (s : pool) :
  m_abort s = false -> registry_fits s -> NoDup (m_threads s) ->
  n <> m_max_threads s -> 0 <= n ->
  NoDup ids -> incl ids (m_threads s) ->
  Z.of_nat (length ids) = Z.of_nat (length (m_threads s)) - n ->
  let s' := snd (claim_each ids (set_max_threads n s)) in
  fst (claim_each ids (set_max_threads n s)) = repeat true (length ids)
  /\ Z.of_nat (length (m_threads s')) = n
  /\ (forall id, In id ids -> ~ In id (m_threads s'))
  /\ m_threads_to_exit s' = 0
  /\ m_max_threads s' = n.
Proof.
  intros Hab Hreg Hnd Hne Hn Hids Hincl Hlen s'. subst s'.
  pose proof (threads_size_fits s Hreg) as Hsize.
  assert (Hfit : fits_int (threads_size s - n)).
  { rewrite Hsize. unfold registry_fits in Hreg.
    unfold fits_int, int_min. unfold int_max in *. lia. }
  rewrite (set_max_threads_shrinks n s Hne ltac:(lia) Hfit).
  match goal with |- context [claim_each ids ?s1] =>
    destruct (claim_each_shrinks ids s1) as (A & B & C & D & E) end;
    try assumption.
  - change (Z.of_nat (length ids) <= threads_size s - n). lia.
  - cbn [m_threads_to_exit m_max_threads m_threads unlock stop_threads emit
         set_calls set_to_exit set_max lock] in B, C, D.
    split; [exact A |]. split; [lia |]. split; [exact E |]. split; [lia | exact D].
Qed.

Lemma shrink_reaches_cap_witness :
  m_abort sample_pool = false /\ registry_fits sample_pool
  /\ NoDup (m_threads sample_pool)
  /\ 2 <> m_max_threads sample_pool /\ 0 <= 2
  /\ NoDup [4%nat; 0%nat; 2%nat] /\ incl [4%nat; 0%nat; 2%nat] (m_threads sample_pool)
  /\ Z.of_nat (length [4%nat; 0%nat; 2%nat])
     = Z.of_nat (length (m_threads sample_pool)) - 2
  /\ m_threads (snd (claim_each [4%nat; 0%nat; 2%nat] (set_max_threads 2 sample_pool)))
     = [1%nat; 3%nat]
  /\ Z.of_nat (length (m_threads
        (snd (claim_each [4%nat; 0%nat; 2%nat] (set_max_threads 2 sample_pool)))))
     = 2.
Proof.
  assert (H1 : m_abort sample_pool = false) by reflexivity.
  assert (H2 : registry_fits sample_pool) by (vm_compute; discriminate).
  assert (H3 : NoDup (m_threads sample_pool)).
  { repeat constructor; cbn; intuition discriminate. }
  assert (H4 : 2 <> m_max_threads sample_pool) by discriminate.
  assert (H5 : 0 <= 2) by discriminate.
  assert (H6 : NoDup [4%nat; 0%nat; 2%nat]).
  { repeat constructor; cbn; intuition discriminate. }
  assert (H7 : incl [4%nat; 0%nat; 2%nat] (m_threads sample_pool)).
  { intros x Hx. cbn in *. intuition. }
  assert (H8 : Z.of_nat (length [4%nat; 0%nat; 2%nat])
               = Z.of_nat (length (m_threads sample_pool)) - 2) by reflexivity.
  exact (conj H1 (conj H2 (conj H3 (conj H4 (conj H5 (conj H6 (conj H7 (conj H8
    (conj eq_refl
      (proj1 (proj2 (shrink_reaches_cap 2 [4%nat; 0%nat; 2%nat] sample_pool
                       H1 H2 H3 H4 H5 H6 H7 H8)))))))))))).
Defined.

(** ** An aborting pool *)

(** X9.  Once [m_abort] is set, none of the writers (exit claim,
    [set_max_threads], [abort], reaper, [job_queued]) starts, joins,
    detaches or erases a thread, touches the timer, or clears the flag: the
    registry and the flag stay as they are and the only calls made are on
    the mutex and [notify_all]. *)
Theorem aborting_pool_is_frozen (w : writer) (s : pool) :
  m_abort s = true ->
  m_abort (perform w s) = true
  /\ m_threads (perform w s) = m_threads s
  /\ threads_started (perform w s) = threads_started s
  /\ exists cs, calls (perform w s) = calls s ++ cs
                /\ forallb quiet_call cs = true.
Proof.
  intros Hab.
  destruct w as [race id | i | jt wait | ec | race q]; cbn [perform].
  - unfold try_thread_exit.
    destruct (claim_slot race (m_threads_to_exit s)) as [cell e].
    destruct (0 <? e).
    + change (m_abort (lock (set_to_exit cell s))) with (m_abort s).
      rewrite Hab. cbn [negb snd]. repeat split; try assumption.
      exists [MutexLock; MutexUnlock]. split; [lay_out | reflexivity].
    + cbn [snd]. repeat split; try assumption.
      exists []. split; [cbn; now rewrite app_nil_r | reflexivity].
  - unfold set_max_threads.
    change (m_max_threads (lock s)) with (m_max_threads s).
    change (threads_size (set_max i (lock s))) with (threads_size s).
    destruct (i =? m_max_threads s); [| destruct (threads_size s <? i)];
      repeat split; try assumption.
    + exists [MutexLock; MutexUnlock]. split; [lay_out | reflexivity].
    + exists [MutexLock; MutexUnlock]. split; [lay_out | reflexivity].
    + exists [MutexLock; NotifyAll; MutexUnlock]. split; [lay_out | reflexivity].
  - unfold abort. change (m_abort (lock s)) with (m_abort s). rewrite Hab.
    cbn [snd]. repeat split; try assumption.
    exists [MutexLock; MutexUnlock]. split; [lay_out | reflexivity].
  - unfold reap_idle_threads. destruct (ec_set ec).
    + repeat split; try assumption.
      exists []. split; [now rewrite app_nil_r | reflexivity].
    + change (m_abort (lock s)) with (m_abort s). rewrite Hab.
      repeat split; try assumption.
      exists [MutexLock; MutexUnlock]. split; [lay_out | reflexivity].
  - unfold job_queued. destruct (q <=? m_num_idle_threads s).
    + repeat split; try assumption.
      exists []. split; [now rewrite app_nil_r | reflexivity].
    + change (m_abort (lock s)) with (m_abort s). rewrite Hab.
      repeat split; try assumption.
      exists [MutexLock; MutexUnlock]. split; [lay_out | reflexivity].
Qed.

Lemma aborting_pool_is_frozen_witness :
  m_abort aborted_pool = true
  /\ m_threads (perform (JobQueued [] 9) aborted_pool) = m_threads aborted_pool.
Proof.
  assert (H : m_abort aborted_pool = true) by reflexivity.
  exact (conj H
    (proj1 (proj2 (aborting_pool_is_frozen (JobQueued [] 9) aborted_pool H)))).
Defined.

(** ** Going active *)

(** X10.  [thread_active] takes one off [m_num_idle_threads] and makes sure
    [m_min_idle_threads] is no larger than the new count [n]: afterwards the
    minimum is at most [n]; it is either a value it held before or during
    the call, left as it was, or [n] stored over such a value larger than
    [n]; so it is never raised, and with no other thread at the cell it is
    [min (old minimum) n].  Nothing else changes. *)
Theorem thread_active_lowers_minimum (race : list interference) (s : pool) :
  let n := to_int (m_num_idle_threads s - 1) in
  let s' := thread_active race s in
  m_num_idle_threads s' = n
  /\ m_min_idle_threads s' <= n
  /\ (exists v, In v (m_min_idle_threads s :: stored race)
        /\ (m_min_idle_threads s' = v
            \/ (m_min_idle_threads s' = n /\ n < v)))
  /\ (stored race = [] ->
      m_min_idle_threads s' = Z.min (m_min_idle_threads s) n)
  /\ s' = set_min_idle (m_min_idle_threads s') (set_num_idle n s).
Proof.
  intros n s'. subst s'. unfold thread_active. fold n.
  change (m_min_idle_threads (set_num_idle n s)) with (m_min_idle_threads s).
  destruct (cas_retry_spec (fun e => n <? e) (fun _ => n) race
              (m_min_idle_threads s)) as (A & B & C).
  destruct (cas_retry (fun e => n <? e) (fun _ => n) race
              (m_min_idle_threads s) (m_min_idle_threads s)) as [cell e].
  cbn [fst snd] in *.
  change (m_min_idle_threads (set_min_idle cell _)) with cell.
  split; [reflexivity |].
  destruct (Z.ltb_spec n e) as [Hlt | Hge].
  - rewrite (B eq_refl). split; [lia |]. split; [| split; [| reflexivity]].
    + exists e. split; [exact A |]. right. split; [reflexivity | exact Hlt].
    + intros Hq. rewrite Hq in A. destruct A as [<- | []]. lia.
  - rewrite (C eq_refl). split; [lia |]. split; [| split; [| reflexivity]].
    + exists e. split; [exact A |]. now left.
    + intros Hq. rewrite Hq in A. destruct A as [<- | []]. lia.
Qed.

Lemma thread_active_lowers_minimum_witness :
  stored [Spurious] = []
  /\ m_min_idle_threads (thread_active [Spurious] pending_exits_pool) = Z.min 0 2.
Proof.
  assert (H : stored [Spurious] = []) by reflexivity.
  exact (conj H
    (proj1 (proj2 (proj2 (proj2
       (thread_active_lowers_minimum [Spurious] pending_exits_pool)))) H)).
Defined.

(** ** The registry *)

Lemma start_threads_shape (queue_size : Z) (n : nat) :
  forall i s, exists k, start_threads n queue_size i s = grown k s.
Proof.
  induction n as [| n IH]; intros i s; cbn [start_threads].
  - exists 0%nat. symmetry. apply grown_none.
  - destruct ((i <? queue_size) && (threads_size s <? m_max_threads s)).
    + destruct (IH (i + 1) (start_thread s)) as [k E].
      exists (S k). rewrite E, start_thread_grown. apply grown_more.
    + exists 0%nat. symmetry. apply grown_none.
Qed.

(** [job_queued] only appends to the registry, and what it appends are the
    next thread ids. *)
Lemma job_queued_shape (race : list interference) (queue_size : Z) (s : pool) :
  exists k,
    m_threads (job_queued race queue_size s)
    = m_threads s ++ seq (threads_started s) k
    /\ threads_started (job_queued race queue_size s)
       = (k + threads_started s)%nat.
Proof.
  unfold job_queued. destruct (queue_size <=? m_num_idle_threads s).
  - exists 0%nat. cbn. rewrite app_nil_r. split; reflexivity.
  - change (m_abort (lock s)) with (m_abort s). destruct (m_abort s).
    + exists 0%nat. cbn. rewrite app_nil_r. split; reflexivity.
    + destruct (cas_retry _ _ race _ _) as [cell e].
      match goal with |- context [start_threads ?n ?q ?i ?s0] =>
        destruct (start_threads_shape q n i s0) as [k E]; rewrite E end.
      exists k. split; reflexivity.
Qed.



Lemma perform_ids_ok (w : writer) (s : pool) :
  ids_ok s -> ids_ok (perform w s).
Proof.
  intros [Hnd Hlt]. unfold ids_ok.
  destruct w as [race id | i | jt wait | ec | race q]; cbn [perform].
  - destruct (try_thread_exit_threads race id s) as [Est [-> | ->]]; rewrite Est.
    + split; assumption.
    + split; [now apply NoDup_filter |].
      apply (incl_Forall (l1 := m_threads s)); [| exact Hlt].
      intros x Hx. apply filter_In in Hx. tauto.
  - destruct (set_max_threads_frame i s) as (-> & _).
    replace (threads_started (set_max_threads i s)) with (threads_started s);
      [split; assumption |].
    unfold set_max_threads.
    destruct (_ =? _); [reflexivity |]. destruct (_ <? _); reflexivity.
  - unfold abort. change (m_abort (lock s)) with (m_abort s).
    destruct (m_abort s); [split; assumption |].
    match goal with |- context [abort_each jt wait ?ts ?s0] =>
      destruct (abort_each_frame jt wait ts s0) as [cs E];
      destruct (abort_each jt wait ts s0) as [[| t] s1] end;
    cbn [snd] in *; subst s1; cbn.
    + split; constructor.
    + split; assumption.
  - destruct (reap_idle_threads_frame ec s) as (_ & -> & _).
    replace (threads_started (reap_idle_threads ec s)) with (threads_started s);
      [split; assumption |].
    unfold reap_idle_threads. destruct (ec_set ec); [reflexivity |].
    change (m_abort (lock s)) with (m_abort s). destruct (m_abort s); [reflexivity |].
    change (threads_empty (lock s)) with (threads_empty s).
    destruct (threads_empty s); [reflexivity |]. cbv zeta.
    destruct (_ <=? 0); reflexivity.
  - destruct (job_queued_shape race q s) as [k [-> ->]]. split.
    + apply NoDup_app; [exact Hnd | apply seq_NoDup |].
      intros x Hx Hseq. apply in_seq in Hseq.
      rewrite Forall_forall in Hlt. specialize (Hlt x Hx). lia.
    + apply Forall_app. split.
      * rewrite Forall_forall in *. intros x Hx. specialize (Hlt x Hx). lia.
      * rewrite Forall_forall. intros x Hx. apply in_seq in Hx. lia.
Qed.

(** X12.  No thread is registered twice.  Every writer keeps the registry
    free of duplicates and within the ids handed out so far (a new worker
    gets the next id; an exit claim and [abort] only erase), so this holds
    after any sequence of calls on a new pool. *)
Theorem registry_holds_each_thread_once :
  (forall w s, ids_ok s -> ids_ok (perform w s))
  /\ (forall ws, NoDup (m_threads (perform_all ws new_pool))).
Proof.
  split; [exact perform_ids_ok |].
  assert (All : forall ws s, ids_ok s -> ids_ok (perform_all ws s)).
  { induction ws as [| w ws IH]; intros s Hs; cbn [perform_all]; [exact Hs |].
    apply IH, perform_ids_ok, Hs. }
  intros ws. apply (All ws new_pool). split; constructor.
Qed.

Lemma registry_holds_each_thread_once_witness :
  ids_ok sample_pool
  /\ NoDup (m_threads (job_queued [] 9 sample_pool)).
Proof.
  assert (H : ids_ok sample_pool).
  { split.
    - repeat constructor; cbn; intuition discriminate.
    - repeat constructor. }
  exact (conj H
    (proj1 (proj1 registry_holds_each_thread_once (JobQueued [] 9) sample_pool H))).
Defined.

(** ** The cap, again *)

(** X13.  [set_max_threads n] always leaves the cap at [n] and the registry
    as it was, and repeating the call is harmless: the second call only
    takes and releases the mutex, so it does not overwrite the exit counter
    a second time. *)
Theorem set_max_threads_twice (n : Z) (s : pool) :
  let s1 := set_max_threads n s in
  m_max_threads s1 = n
  /\ m_threads s1 = m_threads s
  /\ set_max_threads n s1 = set_calls (calls s1 ++ [MutexLock; MutexUnlock]) s1.
Proof.
  intros s1.
  assert (Hmax : m_max_threads s1 = n).
  { subst s1. unfold set_max_threads.
    change (m_max_threads (lock s)) with (m_max_threads s).
    destruct (Z.eqb_spec n (m_max_threads s)) as [-> | _]; [reflexivity |].
    destruct (_ <? _); reflexivity. }
  split; [exact Hmax |]. split; [apply set_max_threads_frame |].
  unfold set_max_threads at 1.
  change (m_max_threads (lock s1)) with (m_max_threads s1).
  rewrite Hmax, Z.eqb_refl. lay_out.
Qed.

(** ** The reaper at rest *)

(** X14.  A firing of the reaper that does not proceed changes nothing and
    does not re-arm the timer: with the error code set (the timer was
    cancelled) it returns the pool untouched, without taking the mutex; on
    an aborting pool or an empty registry it takes and releases the mutex
    and nothing else.  In particular the sampled minimum is not reset and no
    exit is requested. *)
Theorem reaper_at_rest (ec : error_code) (s : pool) :
  (ec_set ec = true -> reap_idle_threads ec s = s)
  /\ (ec_set ec = false -> m_abort s = true \/ m_threads s = [] ->
      reap_idle_threads ec s
      = set_calls (calls s ++ [MutexLock; MutexUnlock]) s).
Proof.
  unfold reap_idle_threads. split.
  - intros ->. reflexivity.
  - intros -> Hrest.
    change (m_abort (lock s)) with (m_abort s).
    change (threads_empty (lock s)) with (threads_empty s).
    destruct (m_abort s) eqn:Hab; [lay_out |].
    destruct Hrest as [Habs | Hnil]; [discriminate |].
    unfold threads_empty. rewrite Hnil. lay_out.
Qed.

Lemma reaper_at_rest_witness :
  ec_set 995 = true /\ reap_idle_threads 995 sample_pool = sample_pool
  /\ ec_set 0 = false /\ (m_abort new_pool = true \/ m_threads new_pool = [])
  /\ reap_idle_threads 0 new_pool
     = set_calls [MutexLock; MutexUnlock] new_pool.
Proof.
  assert (H1 : ec_set 995 = true) by reflexivity.
  assert (H2 : ec_set 0 = false) by reflexivity.
  assert (H3 : m_abort new_pool = true \/ m_threads new_pool = [])
    by (right; reflexivity).
  exact (conj H1 (conj (proj1 (reaper_at_rest 995 sample_pool) H1)
    (conj H2 (conj H3 (proj2 (reaper_at_rest 0 new_pool) H2 H3))))).
Defined.

(** [thread_active] with no other thread at the cell. *)
Lemma thread_active_lowers_idle (s : pool) :
  m_num_idle_threads (thread_active [] s) = to_int (m_num_idle_threads s - 1)
  /\ m_min_idle_threads (thread_active [] s)
     = Z.min (m_min_idle_threads s) (to_int (m_num_idle_threads s - 1)).
Proof.
  unfold thread_active.
  change (m_min_idle_threads (set_num_idle _ s)) with (m_min_idle_threads s).
  rewrite cas_retry_alone.
  destruct (Z.ltb_spec (to_int (m_num_idle_threads s - 1)) (m_min_idle_threads s));
    cbn; split; try reflexivity; lia.
Qed.

(** ** Waiting, in full *)

Lemma to_int_up_down (z : Z) : fits_int z -> to_int (to_int (z + 1) - 1) = z.
Proof.
  intros Hz. destruct (Z.eq_dec z int_max) as [-> | Hne]; [reflexivity |].
  assert (H1 : fits_int (z + 1)).
  { unfold fits_int, int_min, int_max in *. lia. }
  rewrite (to_int_fits _ H1). replace (z + 1 - 1) with z by lia.
  apply to_int_fits, Hz.
Qed.

Lemma wait_loop_false_means_work (id : thread_id) (passes : list pass) :
  forall s,
    fst (wait_loop id passes s) = Some false ->
    m_queued_jobs (snd (wait_loop id passes s)) <> [].
Proof.
  induction passes as [| p passes IH]; intros s; cbn [wait_loop].
  - discriminate.
  - destruct (exit_wanted (claim_race p) id s) as [leave s1].
    destruct leave; [discriminate |].
    destruct (queue_empty (wait_for (meanwhile p) s1)) eqn:Hq; [apply IH |].
    intros _. cbn [snd].
    destruct (thread_active_frame (active_race p) (wait_for (meanwhile p) s1))
      as (_ & _ & -> & _).
    unfold queue_empty in Hq.
    destruct (m_queued_jobs (wait_for (meanwhile p) s1)); discriminate.
Qed.

Lemma wait_loop_stays_parked (id : thread_id) (passes : list pass) :
  forall s,
    Forall (fun p => forall s0,
              m_queued_jobs s0 = [] -> m_threads_to_exit s0 <= 0 ->
              m_queued_jobs (meanwhile p s0) = []
              /\ m_threads_to_exit (meanwhile p s0) <= 0) passes ->
    m_queued_jobs s = [] -> m_threads_to_exit s <= 0 ->
    fst (wait_loop id passes s) = None.
Proof.
  induction passes as [| p passes IH]; intros s Hp Hq Hk; cbn [wait_loop].
  - reflexivity.
  - inversion Hp as [| ? ? Hthis Hrest]; subst.
    unfold exit_wanted, should_exit.
    destruct (Z.ltb_spec 0 (m_threads_to_exit s)); [lia |]. cbn [andb].
    destruct (Hthis (emit (CondWaitFor 1) s) Hq Hk) as [Hq' Hk'].
    unfold wait_for at 1. unfold queue_empty at 1. rewrite Hq'.
    apply IH; assumption.
Qed.

(** X15.  [wait_for_job] answers only for a reason.  When it answers
    [false] ("process a job") the queue of the pool it returns is not empty.
    And as long as the queue stays empty and no exit is requested (whatever
    else the rest of the program does during the waits), it does not answer
    at all: the worker is still waiting after every pass given.
    ([should_exit] is read as "m_threads_to_exit > 0".) *)
Theorem wait_for_job_answers_for_a_reason
    (id : thread_id) (passes : list pass) (s : pool) :
  (fst (wait_for_job id passes s) = Some false ->
     m_queued_jobs (snd (wait_for_job id passes s)) <> [])
  /\ (Forall (fun p => forall s0,
                m_queued_jobs s0 = [] -> m_threads_to_exit s0 <= 0 ->
                m_queued_jobs (meanwhile p s0) = []
                /\ m_threads_to_exit (meanwhile p s0) <= 0) passes ->
      m_queued_jobs s = [] -> m_threads_to_exit s <= 0 ->
      fst (wait_for_job id passes s) = None).
Proof.
  unfold wait_for_job, queue_empty. split.
  - destruct (m_queued_jobs s) eqn:Hq.
    + apply wait_loop_false_means_work.
    + intros _. cbn [snd]. rewrite Hq. discriminate.
  - intros Hp Hq Hk. rewrite Hq.
    apply wait_loop_stays_parked; assumption.
Qed.

Lemma wait_for_job_answers_for_a_reason_witness :
  Forall (fun p => forall s0,
            m_queued_jobs s0 = [] -> m_threads_to_exit s0 <= 0 ->
            m_queued_jobs (meanwhile p s0) = []
            /\ m_threads_to_exit (meanwhile p s0) <= 0)
    [mk_pass [] (fun s => s) []; mk_pass [] (set_num_idle 0) []]
  /\ m_queued_jobs sample_pool = [] /\ m_threads_to_exit sample_pool <= 0
  /\ fst (wait_for_job 3%nat
            [mk_pass [] (fun s => s) []; mk_pass [] (set_num_idle 0) []]
            sample_pool) = None.
Proof.
  assert (H1 : Forall (fun p => forall s0,
            m_queued_jobs s0 = [] -> m_threads_to_exit s0 <= 0 ->
            m_queued_jobs (meanwhile p s0) = []
            /\ m_threads_to_exit (meanwhile p s0) <= 0)
    [mk_pass [] (fun s => s) []; mk_pass [] (set_num_idle 0) []]).
  { repeat constructor; assumption. }
  assert (H2 : m_queued_jobs sample_pool = []) by reflexivity.
  assert (H3 : m_threads_to_exit sample_pool <= 0) by discriminate.
  exact (conj H1 (conj H2 (conj H3
    (proj2 (wait_for_job_answers_for_a_reason 3%nat _ sample_pool) H1 H2 H3)))).
Defined.

(** X16.  An idle worker told to leave.  [wait_for_job] entered with an
    empty queue, an exit requested and the pool not aborting (no other
    thread at the counters) answers [true] at once, without waiting on the
    condition variable: the worker has claimed one exit (the counter is one
    lower), is out of the registry, and has gone idle and active again, so
    that [m_num_idle_threads] is back at its value and
    [m_min_idle_threads] is at most that value.
    ([thread_idle] is read as "++m_num_idle_threads", [should_exit] as
    "m_threads_to_exit > 0".) *)
Theorem idle_worker_takes_exit
    (id : thread_id) (p : pass) (passes : list pass) (s : pool) :
  m_queued_jobs s = [] -> 0 < m_threads_to_exit s -> m_abort s = false ->
  fits_int (m_num_idle_threads s) ->
  claim_race p = [] -> active_race p = [] ->
  let s' := snd (wait_for_job id (p :: passes) s) in
  fst (wait_for_job id (p :: passes) s) = Some true
  /\ m_threads_to_exit s' = m_threads_to_exit s - 1
  /\ m_threads s' = filter (fun t => negb (Nat.eqb t id)) (m_threads s)
  /\ m_num_idle_threads s' = m_num_idle_threads s
  /\ m_min_idle_threads s' = Z.min (m_min_idle_threads s) (m_num_idle_threads s)
  /\ calls s'
     = calls s ++ [MutexLock]
       ++ map ThreadDetach (filter (fun t => Nat.eqb t id) (m_threads s))
       ++ (match m_threads s' with [] => [TimerCancel] | _ :: _ => [] end)
       ++ [MutexUnlock].
Proof.
  intros Hq Hk Hab Hfit Hcr Har s'. subst s'.
  unfold wait_for_job, queue_empty. rewrite Hq. cbn [wait_loop].
  rewrite Hcr, Har.
  unfold exit_wanted, should_exit, queue_empty.
  change (m_threads_to_exit (thread_idle s)) with (m_threads_to_exit s).
  change (m_queued_jobs (thread_idle s)) with (m_queued_jobs s).
  rewrite Hq. apply Z.ltb_lt in Hk. rewrite Hk. cbn [andb orb].
  apply Z.ltb_lt in Hk.
  assert (Hpos : 0 < snd (claim_slot [] (m_threads_to_exit (thread_idle s)))).
  { rewrite claim_slot_alone.
    change (m_threads_to_exit (thread_idle s)) with (m_threads_to_exit s).
    destruct (Z.ltb_spec 0 (m_threads_to_exit s)); [exact Hk | lia]. }
  rewrite (try_thread_exit_claimed [] id (thread_idle s) Hpos Hab).
  rewrite claim_slot_alone.
  change (m_threads_to_exit (thread_idle s)) with (m_threads_to_exit s).
  destruct (Z.ltb_spec 0 (m_threads_to_exit s)) as [_ | Hle]; [| lia].
  cbn [fst snd].
  match goal with |- context [thread_active [] ?s0] =>
    destruct (thread_active_frame [] s0) as (A & B & _ & D);
    pose proof (thread_active_lowers_idle s0) as (E & F) end.
  rewrite A, B, D, E, F.
  cbn [m_threads_to_exit m_threads m_num_idle_threads m_min_idle_threads calls
       set_calls set_threads set_to_exit thread_idle set_num_idle].
  rewrite (to_int_up_down _ Hfit).
  repeat split; reflexivity.
Qed.

Lemma idle_worker_takes_exit_witness :
  m_queued_jobs pending_exits_pool = []
  /\ 0 < m_threads_to_exit pending_exits_pool
  /\ m_abort pending_exits_pool = false
  /\ fits_int (m_num_idle_threads pending_exits_pool)
  /\ wait_for_job 1%nat [mk_pass [] (fun s => s) []] pending_exits_pool
     = (Some true,
        mk_pool 5 2 false 3 0 [0%nat; 2%nat; 3%nat] [] 4
          [MutexLock; ThreadDetach 1%nat; MutexUnlock])
  /\ m_num_idle_threads
       (snd (wait_for_job 1%nat [mk_pass [] (fun s => s) []] pending_exits_pool))
     = m_num_idle_threads pending_exits_pool.
Proof.
  assert (H1 : m_queued_jobs pending_exits_pool = []) by reflexivity.
  assert (H2 : 0 < m_threads_to_exit pending_exits_pool) by reflexivity.
  assert (H3 : m_abort pending_exits_pool = false) by reflexivity.
  assert (H4 : fits_int (m_num_idle_threads pending_exits_pool))
    by (vm_compute; split; discriminate).
  exact (conj H1 (conj H2 (conj H3 (conj H4 (conj eq_refl
    (proj1 (proj2 (proj2 (proj2
       (idle_worker_takes_exit 1%nat (mk_pass [] (fun s => s) []) []
          pending_exits_pool H1 H2 H3 H4 eq_refl eq_refl)))))))))).
Defined.

(** ** A quiet interval *)

(** X17.  Workers idle through a whole interval are reaped.  When the
    reaper fires twice and proceeds both times, with no worker going idle or
    active in between, the second firing samples the idle count the first
    one stored: with [idle > 0] workers idle it requests
    [max idle (workers - cap)] terminations, whatever minimum the first
    firing had sampled and whatever it had requested. *)
Theorem reaper_reaps_after_quiet_interval (ec1 ec2 : error_code) (s : pool) :
  ec_set ec1 = false -> ec_set ec2 = false ->
  m_abort s = false -> m_threads s <> [] ->
  fits_int (threads_size s - m_max_threads s) ->
  0 < m_num_idle_threads s ->
  let s2 := reap_idle_threads ec2 (reap_idle_threads ec1 s) in
  m_threads_to_exit s2
    = Z.max (m_num_idle_threads s) (threads_size s - m_max_threads s)
  /\ m_min_idle_threads s2 = m_num_idle_threads s
  /\ m_threads s2 = m_threads s.
Proof.
  intros H1 H2 Hab Hne Hfit Hidle s2. subst s2.
  set (s1 := reap_idle_threads ec1 s).
  assert (F : m_abort s1 = false /\ m_threads s1 = m_threads s
              /\ m_min_idle_threads s1 = m_num_idle_threads s
              /\ m_num_idle_threads s1 = m_num_idle_threads s
              /\ m_max_threads s1 = m_max_threads s).
  { subst s1. rewrite (reap_proceeds ec1 s H1 Hab Hne). cbv zeta.
    destruct (m_min_idle_threads s <=? 0); repeat split; assumption. }
  destruct F as (F1 & F2 & F3 & F4 & F5).
  assert (Hne1 : m_threads s1 <> []) by (rewrite F2; exact Hne).
  rewrite (reap_proceeds ec2 s1 H2 F1 Hne1). cbv zeta.
  unfold threads_size. rewrite F2, F3, F4, F5. fold (threads_size s).
  destruct (Z.leb_spec (m_num_idle_threads s) 0); [lia |].
  unfold int_sub. rewrite (to_int_fits _ Hfit), std_max_is_max.
  split; [reflexivity |]. split; [reflexivity | exact F2].
Qed.

Lemma reaper_reaps_after_quiet_interval_witness :
  ec_set 0 = false /\ m_abort pending_exits_pool = false
  /\ m_threads pending_exits_pool <> []
  /\ fits_int (threads_size pending_exits_pool - m_max_threads pending_exits_pool)
  /\ 0 < m_num_idle_threads pending_exits_pool
  /\ m_min_idle_threads pending_exits_pool = 0
  /\ m_threads_to_exit (reap_idle_threads 0 (reap_idle_threads 0 pending_exits_pool))
     = Z.max 3 (4 - 5).
Proof.
  assert (H1 : ec_set 0 = false) by reflexivity.
  assert (H2 : m_abort pending_exits_pool = false) by reflexivity.
  assert (H3 : m_threads pending_exits_pool <> []) by discriminate.
  assert (H4 : fits_int (threads_size pending_exits_pool
                         - m_max_threads pending_exits_pool))
    by (vm_compute; split; discriminate).
  assert (H5 : 0 < m_num_idle_threads pending_exits_pool) by reflexivity.
  exact (conj H1 (conj H2 (conj H3 (conj H4 (conj H5 (conj eq_refl
    (proj1 (reaper_reaps_after_quiet_interval 0 0 pending_exits_pool
              H1 H1 H2 H3 H4 H5)))))))).
Defined.
